(** * IAM console front-end: session, resource stores and HTTP client

    A shallow embedding of
    - [src/types/index.ts]      (the records exchanged with the gateway),
    - [src/services/api.ts]     (class [ApiClient] and its two interceptors),
    - [src/store/authStore.ts]  ([useAuthStore], [useAuthorizationStore]),
    - [src/store/userStore.ts]  ([useUserStore]),
    - the utilities             (names of user types, error messages,
                                 permission names, validation).

    The stores are process-wide singletons that live next to the browser's
    [localStorage]; every asynchronous action is therefore a function from
    one [World] to an outcome and the next [World].  The gateway is not part
    of the repository: it is a parameter [net] that answers each request
    from the request itself and everything that happened before it. *)

From Stdlib Require Import ZArith Ascii String Bool.
From stdpp Require Import base option list strings gmap.

Local Open Scope string_scope.
Local Open Scope list_scope.

(** ** JavaScript values that may be missing *)

(** [undefined] and [null] are both rendered as [None] wherever the
    program treats them alike: in a test ([if (s)], [!s]), on the left of
    [||], and in the fields of a store.  They differ once they are turned
    into text ("undefined", "null").  That happens to the members that are
    read from an answer of the gateway, and there [None] stands for a
    member that the answer leaves out ([undefined]); an answer that
    carries a JSON [null] in the place of a token is not among the answers
    of this model. *)

(** truthiness of a possibly missing string: [if (s)] *)
Definition truthy (s : option string) : bool :=
  match s with
  | Some s => negb (String.eqb s "")
  | None => false
  end.

(** [a || fallback] on strings *)
Definition or_else (a : option string) (fallback : string) : string :=
  match a with
  | Some s => if String.eqb s "" then fallback else s
  | None => fallback
  end.

(** string conversion, as in a template literal or [localStorage.setItem],
    of a string or of a missing member ([undefined]) *)
Definition js_string (s : option string) : string :=
  match s with
  | Some s => s
  | None => "undefined"
  end.

(** ** src/types/index.ts *)

Module User.
Record t := mk {
  userId : string;
  email : string;
  username : string;
  name : string;
  orgId : Z;
  departmentId : Z;
  authTypeId : Z;
  userTypeId : Z;
  userStatusId : Z;
  createdAt : string;
  updatedAt : string;
}.
End User.

Module CreateUserRequest.
Record t := mk {
  email : string;
  username : string;
  name : string;
  password : string;
  orgId : Z;
  departmentId : Z;
  userTypeId : Z;
  userStatusId : Z;
  authTypeId : Z;
}.
End CreateUserRequest.

(** [Partial<CreateUserRequest>] *)
Module PartialUserRequest.
Record t := mk {
  email : option string;
  username : option string;
  name : option string;
  password : option string;
  orgId : option Z;
  departmentId : option Z;
  userTypeId : option Z;
  userStatusId : option Z;
  authTypeId : option Z;
}.
End PartialUserRequest.

Module LoginRequest.
Record t := mk { email : string; password : string }.
End LoginRequest.

Module UserInfo.
Record t := mk {
  userId : string;
  email : string;
  username : string;
  name : string;
  orgId : Z;
  departmentId : Z;
  userType : string;
  userStatus : string;
}.
End UserInfo.

(** The fields of a login answer are read by destructuring, which yields
    [undefined] for a field the gateway left out. *)
Module LoginResponse.
Record t := mk {
  accessToken : option string;
  refreshToken : option string;
  tokenType : option string;
  expiresIn : option Z;
  userInfo : option UserInfo.t;
  loginAt : option string;
}.
End LoginResponse.

(** the payload of [POST /auth/refresh], as [refreshToken] of the session
    store destructures it *)
Module RefreshResponse.
Record t := mk {
  accessToken : option string;
  userInfo : option UserInfo.t;
}.
End RefreshResponse.

Module Permission.
Record t := mk {
  permissionId : string;
  permissionName : string;
  resource : string;
  action : string;
  description : string;
  isActive : bool;
  isSystemPermission : bool;
  createdAt : string;
  updatedAt : string;
  createdBy : option string;
  updatedBy : option string;
}.
End Permission.

Module Role.
Record t := mk {
  roleId : string;
  roleName : string;
  description : string;
  orgId : Z;
  departmentId : option Z;
  isActive : bool;
  isSystemRole : bool;
  createdAt : string;
  updatedAt : string;
  createdBy : option string;
  updatedBy : option string;
  permissions : option (list Permission.t);
  userCount : option Z;
}.
End Role.

Module CreateRoleRequest.
Record t := mk {
  roleName : string;
  description : option string;
  orgId : Z;
  departmentId : option Z;
  isSystemRole : option bool;
  permissionIds : option (list string);
}.
End CreateRoleRequest.

Module CreatePermissionRequest.
Record t := mk {
  permissionName : string;
  resource : string;
  action : string;
  description : option string;
  isSystemPermission : option bool;
}.
End CreatePermissionRequest.

Module PermissionCheck.
Record t := mk { hasPermission : bool }.
End PermissionCheck.

(** [ApiResponse<T>]: the envelope of every body.  [accessToken] is not a
    declared member of the interface; it stands for a property of that name
    at the top level of the body, which is what the 401 interceptor reads
    from the answer of the refresh call. *)
Module ApiResponse.
Record t (T : Type) := mk {
  success : bool;
  message : option string;
  data : option T;
  error : option string;
  errors : option (list string);
  accessToken : option string;
}.
Arguments mk {T}.
Arguments success {T}.
Arguments message {T}.
Arguments data {T}.
Arguments error {T}.
Arguments errors {T}.
Arguments accessToken {T}.
End ApiResponse.

(** The object literal of [useAuthStore] declares the key [refreshToken]
    twice: as a field ([refreshToken: null], line 35) and, further down,
    as the action ([refreshToken: async () => ...], line 87).  The later
    declaration wins.  So the member [refreshToken] of the store first
    holds the action, and holds it until a [set] writes a token or [null]
    under the same key; from then on the store has no such action. *)
Inductive RefreshMember :=
| RefreshAction
| RefreshValue (token : option string).

(** [!refreshToken]: a function is truthy *)
Definition member_truthy (m : RefreshMember) : bool :=
  match m with
  | RefreshAction => true
  | RefreshValue token => truthy token
  end.

(** what [JSON.stringify] keeps of the member: a function is left out *)
Definition member_json (m : RefreshMember) : option string :=
  match m with
  | RefreshAction => None
  | RefreshValue token => token
  end.

(** [AuthState], [UserState] and [AuthorizationState] *)
Module AuthState.
Record t := mk {
  user : option UserInfo.t;
  token : option string;
  refreshToken : RefreshMember;
  isAuthenticated : bool;
  isLoading : bool;
}.
End AuthState.

(** A slot filled from [response.data] holds [None] when the envelope had
    no [data]; this is why collections are lists of optional records. *)
Module UserState.
Record t := mk {
  users : list (option User.t);
  currentUser : option User.t;
  isLoading : bool;
  error : option string;
}.
End UserState.

Module AuthorizationState.
Record t := mk {
  roles : option (list (option Role.t));
  permissions : option (list (option Permission.t));
  userRoles : gmap string (option (list Role.t));
  userPermissions : gmap string (option (list Permission.t));
  isLoading : bool;
  error : option string;
}.
End AuthorizationState.

(** ** Requests *)

(** The routes of the gateway that the stores reach through [ApiClient]. *)
Inductive Endpoint :=
| PostLogin
| PostLogout
| PostRefresh
| GetUsers
| GetUser (userId : string)
| PostUser
| PutUser (userId : string)
| DeleteUser (userId : string)
| GetRoles
| PostRole
| GetPermissions
| PostPermission
| PostAssignRole
| DeleteUserRole (userId roleId : string)
| GetUserRoles (userId : string)
| GetUserPermissions (userId : string)
| PostCheckPermission.

Inductive Method := GET | POST | PUT | DELETE.

Definition method (e : Endpoint) : Method :=
  match e with
  | GetUsers | GetUser _ | GetRoles | GetPermissions
  | GetUserRoles _ | GetUserPermissions _ => GET
  | PutUser _ => PUT
  | DeleteUser _ | DeleteUserRole _ _ => DELETE
  | _ => POST
  end.

Definition url (e : Endpoint) : string :=
  match e with
  | PostLogin => "/auth/login"
  | PostLogout => "/auth/logout"
  | PostRefresh => "/auth/refresh"
  | GetUsers | PostUser => "/users"
  | GetUser i | PutUser i | DeleteUser i => "/users/" +:+ i
  | GetRoles | PostRole => "/roles"
  | GetPermissions | PostPermission => "/permissions"
  | PostAssignRole => "/authorization/assign-role"
  | DeleteUserRole u r => "/authorization/users/" +:+ u +:+ "/roles/" +:+ r
  | GetUserRoles u => "/authorization/users/" +:+ u +:+ "/roles"
  | GetUserPermissions u => "/authorization/users/" +:+ u +:+ "/permissions"
  | PostCheckPermission => "/authorization/check-permission"
  end.

(** what [data] of the envelope holds on each route *)
Definition Payload (e : Endpoint) : Type :=
  match e with
  | PostLogin => LoginResponse.t
  | PostRefresh => RefreshResponse.t
  | GetUsers => list User.t
  | GetUser _ | PostUser | PutUser _ => User.t
  | GetRoles | GetUserRoles _ => list Role.t
  | PostRole => Role.t
  | GetPermissions | GetUserPermissions _ => list Permission.t
  | PostPermission => Permission.t
  | PostCheckPermission => PermissionCheck.t
  | PostLogout | DeleteUser _ | PostAssignRole | DeleteUserRole _ _ => unit
  end.

Definition Body (e : Endpoint) : Type := ApiResponse.t (Payload e).

(** [EmptyObject] is the body [{}], as of an object whose only member is
    a function *)
Inductive RequestData :=
| NoData
| EmptyObject
| LoginData (email password : string)
| LogoutData (accessToken : string)
| RefreshData (refreshToken : string)
| CreateUserData (d : CreateUserRequest.t)
| UpdateUserData (d : PartialUserRequest.t)
| CreateRoleData (d : CreateRoleRequest.t)
| CreatePermissionData (d : CreatePermissionRequest.t)
| AssignRoleData (userId roleId : string)
| CheckPermissionData (userId resource action : string).

(** the part of an [AxiosRequestConfig] that the client touches *)
Module Config.
Record t := mk {
  data : RequestData;
  Authorization : option string;
  _retry : bool;
}.
End Config.

(** ** Failures *)

Module ErrorResponse.
Record t := mk {
  status : Z;
  data : option (ApiResponse.t unit);
}.
End ErrorResponse.

(** What a [catch] clause can receive.  [StackExhausted] is the marker of
    the bounded unfolding of [this.client] below; [client_never_exhausted]
    shows that it does not occur. *)
Inductive Error :=
| AxiosError (response : option ErrorResponse.t) (message : string)
| TypeError (message : string)
| PlainError (message : string)
| StackExhausted.

(** [error.response?.status] *)
Definition error_status (err : Error) : option Z :=
  match err with
  | AxiosError (Some r) _ => Some (ErrorResponse.status r)
  | _ => None
  end.

(** [error.response?.data?.error] *)
Definition error_response_error (err : Error) : option string :=
  match err with
  | AxiosError (Some r) _ =>
      match ErrorResponse.data r with
      | Some d => ApiResponse.error d
      | None => None
      end
  | _ => None
  end.

(** [error.message] *)
Definition error_message (err : Error) : option string :=
  match err with
  | AxiosError _ m | TypeError m | PlainError m => Some m
  | StackExhausted => None
  end.

(** the answer of the transport to one request: a 2xx body, a response
    with another status, or no response at all *)
Inductive NetResult (e : Endpoint) :=
| Fulfilled (body : Body e)
| Rejected (response : ErrorResponse.t) (message : string)
| Unreachable (message : string).
Arguments Fulfilled {e}.
Arguments Rejected {e}.
Arguments Unreachable {e}.

(** ** The world *)

Inductive Snapshot :=
| AuthSnap (s : AuthState.t)
| UserSnap (s : UserState.t)
| AuthorizationSnap (s : AuthorizationState.t).

Inductive Event :=
| EvHttp (e : Endpoint) (cfg : Config.t)
| EvSet (s : Snapshot)
| EvToastSuccess (msg : string)
| EvToastError (msg : string)
| EvConsole (msg : string)
| EvNavigate (href : string).

(** the [partialize]d part of the session, kept by the [persist]
    middleware under the key ['auth-storage'] *)
Module Persisted.
Record t := mk {
  user : option UserInfo.t;
  token : option string;
  refreshToken : option string;
  isAuthenticated : bool;
}.
End Persisted.

Module World.
Record t := mk {
  localStorage : gmap string string;
  auth_storage : option Persisted.t;
  href : string;
  auth : AuthState.t;
  userStore : UserState.t;
  authorization : AuthorizationState.t;
  log : list Event;
}.
End World.
Import World.

Definition with_localStorage (f : gmap string string -> gmap string string)
    (w : World.t) : World.t :=
  World.mk (f (localStorage w)) (auth_storage w) (href w) (auth w)
           (userStore w) (authorization w) (log w).

Definition with_event (ev : Event) (w : World.t) : World.t :=
  World.mk (localStorage w) (auth_storage w) (href w) (auth w)
           (userStore w) (authorization w) (log w ++ [ev]).

Definition with_href (h : string) (w : World.t) : World.t :=
  World.mk (localStorage w) (auth_storage w) h (auth w)
           (userStore w) (authorization w) (log w).

(** ** Asynchronous actions *)

Inductive Outcome (A : Type) :=
| Ok (a : A)
| Err (e : Error).
Arguments Ok {A}.
Arguments Err {A}.

Definition M (A : Type) : Type := World.t -> Outcome A * World.t.

Definition ret {A} (a : A) : M A := fun w => (Ok a, w).
Definition throw {A} (e : Error) : M A := fun w => (Err e, w).
Definition bind {A B} (m : M A) (k : A -> M B) : M B :=
  fun w =>
    match m w with
    | (Ok a, w') => k a w'
    | (Err e, w') => (Err e, w')
    end.
Definition try_catch {A} (m : M A) (handler : Error -> M A) : M A :=
  fun w =>
    match m w with
    | (Ok a, w') => (Ok a, w')
    | (Err e, w') => handler e w'
    end.

Declare Scope async_scope.
Delimit Scope async_scope with async.
Notation "'let*' x ':=' m 'in' k" := (bind m (fun x => k))
  (at level 10, x name, m at level 100, k at level 200) : async_scope.
Notation "m ';;' k" := (bind m (fun _ => k))
  (at level 100, k at level 200, right associativity) : async_scope.
Local Open Scope async_scope.

Definition getItem (k : string) : M (option string) :=
  fun w => (Ok (localStorage w !! k), w).
Definition setItem (k v : string) : M unit :=
  fun w => (Ok tt, with_localStorage (insert k v) w).
Definition removeItem (k : string) : M unit :=
  fun w => (Ok tt, with_localStorage (delete k) w).
Definition emit (ev : Event) : M unit :=
  fun w => (Ok tt, with_event ev w).
Definition toast_success (msg : string) : M unit := emit (EvToastSuccess msg).
Definition toast_error (msg : string) : M unit := emit (EvToastError msg).
Definition console (msg : string) : M unit := emit (EvConsole msg).
(** [window.location.href = h] *)
Definition navigate (h : string) : M unit :=
  fun w => (Ok tt, with_event (EvNavigate h) (with_href h w)).

(** ** src/services/api.ts: class ApiClient *)

Section ApiClient.

(** the gateway: its answer to a request, given all earlier events *)
Variable net : forall e : Endpoint, list Event -> Config.t -> NetResult e.

(** one exchange over the wire (the axios adapter, no interceptor) *)
Definition transport (e : Endpoint) (cfg : Config.t) : M (Body e) :=
  fun w =>
    let w' := with_event (EvHttp e cfg) w in
    match net e (log w) cfg with
    | Fulfilled body => (Ok body, w')
    | Rejected r msg => (Err (AxiosError (Some r) msg), w')
    | Unreachable msg => (Err (AxiosError None msg), w')
    end.

(** request interceptor: add the bearer token *)
Definition authorize (token : option string) (config : Config.t)
    : Config.t :=
  if truthy token
  then Config.mk (Config.data config)
                 (Some ("Bearer " +:+ js_string token))
                 (Config._retry config)
  else config.

Definition request_interceptor (config : Config.t) : M Config.t :=
  let* token := getItem "accessToken" in
  ret (authorize token config).

(** [private async refreshToken]: a bare [axios.post], outside the
    instance and its interceptors *)
Definition ApiClient_refreshToken (refreshToken : string)
    : M (Body PostRefresh) :=
  transport PostRefresh (Config.mk (RefreshData refreshToken) None false).

Definition clearTokens : M unit :=
  removeItem "accessToken";;
  removeItem "refreshToken";;
  removeItem "user".

(** the tail of the response interceptor: "Handle other errors" *)
Definition handle_other_errors {A} (error : Error) : M A :=
  (if truthy (error_response_error error)
   then toast_error (js_string (error_response_error error))
   else if truthy (error_message error)
        then toast_error (js_string (error_message error))
        else ret tt);;
  throw error.

(** The rejection handler of the response interceptor.  [client] is
    [this.client].  Inside the [try] block the replay is returned without
    being awaited, so the [catch] clause only sees a failure of the
    refresh call; the block is therefore rendered as the computation of
    the request to replay, if any, and the replay follows it. *)
Definition response_rejected
    (client : forall e, Config.t -> M (Body e))
    (e : Endpoint) (originalRequest : Config.t) (error : Error)
    : M (Body e) :=
  if bool_decide (error_status error = Some 401%Z)
     && negb (Config._retry originalRequest)
  then
    let originalRequest :=
      Config.mk (Config.data originalRequest)
                (Config.Authorization originalRequest) true in
    let* replay :=
      try_catch
        (let* refreshToken := getItem "refreshToken" in
         if truthy refreshToken
         then
           let* response :=
             ApiClient_refreshToken (js_string refreshToken) in
           let accessToken := ApiResponse.accessToken response in
           setItem "accessToken" (js_string accessToken);;
           ret (Some (Config.mk (Config.data originalRequest)
                        (Some ("Bearer " +:+ js_string accessToken))
                        (Config._retry originalRequest)))
         else ret None)
        (fun refreshError =>
           clearTokens;;
           navigate "/login";;
           throw refreshError) in
    match replay with
    | Some request => client e request
    | None => handle_other_errors error
    end
  else handle_other_errors error.

(** one call of the axios instance, with both interceptors *)
Definition client_call
    (client : forall e, Config.t -> M (Body e))
    (e : Endpoint) (config : Config.t) : M (Body e) :=
  let* config := request_interceptor config in
  try_catch (transport e config) (response_rejected client e config).

(** [this.client], unfolded [depth] times *)
Fixpoint client_upto (depth : nat) (e : Endpoint) (config : Config.t)
    : M (Body e) :=
  match depth with
  | O => throw StackExhausted
  | S depth => client_call (client_upto depth) e config
  end.

(** A call and at most one replay inside it: two levels. *)
Definition client (e : Endpoint) (config : Config.t) : M (Body e) :=
  client_upto 2 e config.

(** [get], [post], [put], [delete]: the route fixes the verb.  The
    result stands for [response.data], the body. *)
Definition request (e : Endpoint) (data : RequestData) : M (Body e) :=
  client e (Config.mk data None false).

Definition api_login (email password : string) :=
  request PostLogin (LoginData email password).

Definition api_logout : M unit :=
  let* accessToken := getItem "accessToken" in
  (if truthy accessToken
   then try_catch
          (request PostLogout (LogoutData (js_string accessToken));;
           ret tt)
          (fun _ => console "Logout request failed:")
   else ret tt);;
  clearTokens.

Definition api_getUsers := request GetUsers NoData.
Definition api_getUserById (userId : string) :=
  request (GetUser userId) NoData.
Definition api_createUser (userData : CreateUserRequest.t) :=
  request PostUser (CreateUserData userData).
Definition api_updateUser (userId : string)
    (userData : PartialUserRequest.t) :=
  request (PutUser userId) (UpdateUserData userData).
Definition api_deleteUser (userId : string) :=
  request (DeleteUser userId) NoData.
Definition api_getRoles := request GetRoles NoData.
Definition api_createRole (roleData : CreateRoleRequest.t) :=
  request PostRole (CreateRoleData roleData).
Definition api_getPermissions := request GetPermissions NoData.
Definition api_createPermission (d : CreatePermissionRequest.t) :=
  request PostPermission (CreatePermissionData d).
Definition api_assignRole (userId roleId : string) :=
  request PostAssignRole (AssignRoleData userId roleId).
Definition api_revokeRole (userId roleId : string) :=
  request (DeleteUserRole userId roleId) NoData.
Definition api_getUserRoles (userId : string) :=
  request (GetUserRoles userId) NoData.
Definition api_getUserPermissions (userId : string) :=
  request (GetUserPermissions userId) NoData.
Definition api_checkPermission (userId resource action : string) :=
  request PostCheckPermission (CheckPermissionData userId resource action).

End ApiClient.

(** ** zustand: [get] and [set] of the three stores *)

(** [partialize], as [persist] writes it to the storage with
    [JSON.stringify] *)
Definition partialize (state : AuthState.t) : Persisted.t :=
  Persisted.mk (AuthState.user state) (AuthState.token state)
               (member_json (AuthState.refreshToken state))
               (AuthState.isAuthenticated state).

(** [set] of the session store; [persist] writes the partialized state
    after every change *)
Definition set_auth (f : AuthState.t -> AuthState.t) : M unit :=
  fun w =>
    let s := f (auth w) in
    (Ok tt, World.mk (localStorage w) (Some (partialize s)) (href w) s
                     (userStore w) (authorization w)
                     (log w ++ [EvSet (AuthSnap s)])).
Definition get_auth : M AuthState.t := fun w => (Ok (auth w), w).

Definition set_user (f : UserState.t -> UserState.t) : M unit :=
  fun w =>
    let s := f (userStore w) in
    (Ok tt, World.mk (localStorage w) (auth_storage w) (href w) (auth w)
                     s (authorization w)
                     (log w ++ [EvSet (UserSnap s)])).
Definition get_user : M UserState.t := fun w => (Ok (userStore w), w).

Definition set_authorization
    (f : AuthorizationState.t -> AuthorizationState.t) : M unit :=
  fun w =>
    let s := f (authorization w) in
    (Ok tt, World.mk (localStorage w) (auth_storage w) (href w) (auth w)
                     (userStore w) s
                     (log w ++ [EvSet (AuthorizationSnap s)])).
Definition get_authorization : M AuthorizationState.t :=
  fun w => (Ok (authorization w), w).

(** an exception raised by a synchronous expression *)
Definition lift {A} (o : Outcome A) : M A := fun w => (o, w).

(** reading a property of [undefined] *)
Definition undefined_property {A} : Outcome A :=
  Err (TypeError "Cannot read properties of undefined").
(** spreading [undefined] *)
Definition not_iterable {A} : Outcome A :=
  Err (TypeError "undefined is not iterable").
(** destructuring [undefined] *)
Definition cannot_destructure {A} : Outcome A :=
  Err (TypeError "Cannot destructure undefined").

(** [Array.prototype.map] and [filter] with a callback that may throw *)
Fixpoint array_map {A B} (f : A -> Outcome B) (l : list A)
    : Outcome (list B) :=
  match l with
  | [] => Ok []
  | x :: l =>
      match f x with
      | Ok y =>
          match array_map f l with
          | Ok l' => Ok (y :: l')
          | Err e => Err e
          end
      | Err e => Err e
      end
  end.

Fixpoint array_filter {A} (f : A -> Outcome bool) (l : list A)
    : Outcome (list A) :=
  match l with
  | [] => Ok []
  | x :: l =>
      match f x with
      | Ok b =>
          match array_filter f l with
          | Ok l' => Ok (if b then x :: l' else l')
          | Err e => Err e
          end
      | Err e => Err e
      end
  end.

(** [user.userId === userId] on an element of the collection *)
Definition user_has_id (userId : string) (user : option User.t)
    : Outcome bool :=
  match user with
  | Some u => Ok (String.eqb (User.userId u) userId)
  | None => undefined_property
  end.

(** [state.currentUser?.userId === userId] *)
Definition current_has_id (userId : string) (currentUser : option User.t)
    : bool :=
  match currentUser with
  | Some u => String.eqb (User.userId u) userId
  | None => false
  end.

Section Stores.

Variable net : forall e : Endpoint, list Event -> Config.t -> NetResult e.

(** ** src/store/authStore.ts: useAuthStore *)

Definition initial_auth : AuthState.t :=
  AuthState.mk None None RefreshAction false false.

Definition auth_loading (b : bool) (s : AuthState.t) : AuthState.t :=
  AuthState.mk (AuthState.user s) (AuthState.token s)
               (AuthState.refreshToken s) (AuthState.isAuthenticated s) b.

Definition login (credentials : LoginRequest.t) : M unit :=
  set_auth (auth_loading true);;
  try_catch
    (let* response :=
       api_login net (LoginRequest.email credentials)
                     (LoginRequest.password credentials) in
     let* d :=
       lift (match ApiResponse.data response with
             | Some d => Ok d
             | None => cannot_destructure
             end) in
     let accessToken := LoginResponse.accessToken d in
     let refreshToken := LoginResponse.refreshToken d in
     let userInfo := LoginResponse.userInfo d in
     setItem "accessToken" (js_string accessToken);;
     setItem "refreshToken" (js_string refreshToken);;
     set_auth (fun _ =>
                 AuthState.mk userInfo accessToken (RefreshValue refreshToken)
                              true false);;
     toast_success "Login successful!")
    (fun error =>
       set_auth (auth_loading false);;
       let message := or_else (error_response_error error) "Login failed" in
       toast_error message;;
       throw error).

Definition logout : M unit :=
  try_catch (api_logout net)
            (fun _ => console "Logout API call failed:");;
  removeItem "accessToken";;
  removeItem "refreshToken";;
  removeItem "user";;
  set_auth (fun _ => AuthState.mk None None (RefreshValue None) false false);;
  toast_success "Logged out successfully".

(** The body of [api.post('/auth/refresh', { refreshToken })]: a string
    is sent, and the function is left out by [JSON.stringify].  A missing
    value does not get here: the guard has thrown before. *)
Definition refresh_data (refreshToken : RefreshMember) : RequestData :=
  match refreshToken with
  | RefreshAction => EmptyObject
  | RefreshValue (Some token) => RefreshData token
  | RefreshValue None => EmptyObject
  end.

(** The function of line 87.  What [get()] hands to its guard is the
    member: the function itself, or what a [set] has put in its place. *)
Definition refreshToken : M unit :=
  let* state := get_auth in
  let refreshToken := AuthState.refreshToken state in
  if negb (member_truthy refreshToken)
  then throw (PlainError "No refresh token available")
  else
    try_catch
      (let* response :=
         request net PostRefresh (refresh_data refreshToken) in
       let* d :=
         lift (match ApiResponse.data response with
               | Some d => Ok d
               | None => cannot_destructure
               end) in
       let accessToken := RefreshResponse.accessToken d in
       let userInfo := RefreshResponse.userInfo d in
       setItem "accessToken" (js_string accessToken);;
       set_auth (fun s =>
                   AuthState.mk userInfo accessToken
                                (AuthState.refreshToken s) true
                                (AuthState.isLoading s)))
      (fun error =>
         set_auth (fun s =>
                     AuthState.mk None None (RefreshValue None) false
                                  (AuthState.isLoading s));;
         throw error).

(** [useAuthStore.getState().refreshToken()], and the same call by a
    component that takes [refreshToken] from the hook: it goes to what the
    member holds at the time of the call, and fails with a TypeError when
    that is not the function. *)
Definition call_refreshToken : M unit :=
  let* state := get_auth in
  match AuthState.refreshToken state with
  | RefreshAction => refreshToken
  | RefreshValue _ => throw (TypeError "refreshToken is not a function")
  end.

Definition auth_clearError : M unit := set_auth (auth_loading false).
Definition setLoading (loading : bool) : M unit :=
  set_auth (auth_loading loading).

(** ** src/store/userStore.ts: useUserStore *)

Definition initial_users : UserState.t := UserState.mk [] None false None.

(** [set({ isLoading: true, error: null })] *)
Definition users_begin (s : UserState.t) : UserState.t :=
  UserState.mk (UserState.users s) (UserState.currentUser s) true None.

(** [set({ error: message, isLoading: false })] *)
Definition users_failed (message : string) (s : UserState.t)
    : UserState.t :=
  UserState.mk (UserState.users s) (UserState.currentUser s) false
               (Some message).

Definition fetchUsers : M unit :=
  set_user users_begin;;
  try_catch
    (let* response := api_getUsers net in
     set_user (fun s =>
       UserState.mk
         (match ApiResponse.data response with
          | Some l => map Some l
          | None => []
          end)
         (UserState.currentUser s) false (UserState.error s)))
    (fun error =>
       let message :=
         or_else (error_response_error error) "Failed to fetch users" in
       set_user (users_failed message);;
       toast_error message).

Definition fetchUserById (userId : string) : M unit :=
  set_user users_begin;;
  try_catch
    (let* response := api_getUserById net userId in
     set_user (fun s =>
       UserState.mk (UserState.users s) (ApiResponse.data response)
                    false (UserState.error s)))
    (fun error =>
       let message :=
         or_else (error_response_error error) "Failed to fetch user" in
       set_user (users_failed message);;
       toast_error message).

Definition createUser (userData : CreateUserRequest.t) : M unit :=
  set_user users_begin;;
  try_catch
    (let* response := api_createUser net userData in
     let newUser := ApiResponse.data response in
     set_user (fun state =>
       UserState.mk (UserState.users state ++ [newUser])
                    (UserState.currentUser state) false
                    (UserState.error state));;
     toast_success "User created successfully!")
    (fun error =>
       let message :=
         or_else (error_response_error error) "Failed to create user" in
       set_user (users_failed message);;
       toast_error message;;
       throw error).

Definition updateUser (userId : string) (userData : PartialUserRequest.t)
    : M unit :=
  set_user users_begin;;
  try_catch
    (let* response := api_updateUser net userId userData in
     let updatedUser := ApiResponse.data response in
     let* state := get_user in
     let* users :=
       lift (array_map
               (fun user =>
                  match user_has_id userId user with
                  | Ok b => Ok (if b then updatedUser else user)
                  | Err e => Err e
                  end)
               (UserState.users state)) in
     set_user (fun state =>
       UserState.mk users
         (if current_has_id userId (UserState.currentUser state)
          then updatedUser else UserState.currentUser state)
         false (UserState.error state));;
     toast_success "User updated successfully!")
    (fun error =>
       let message :=
         or_else (error_response_error error) "Failed to update user" in
       set_user (users_failed message);;
       toast_error message;;
       throw error).

Definition deleteUser (userId : string) : M unit :=
  set_user users_begin;;
  try_catch
    (api_deleteUser net userId;;
     let* state := get_user in
     let* users :=
       lift (array_filter
               (fun user =>
                  match user_has_id userId user with
                  | Ok b => Ok (negb b)
                  | Err e => Err e
                  end)
               (UserState.users state)) in
     set_user (fun state =>
       UserState.mk users
         (if current_has_id userId (UserState.currentUser state)
          then None else UserState.currentUser state)
         false (UserState.error state));;
     toast_success "User deleted successfully!")
    (fun error =>
       let message :=
         or_else (error_response_error error) "Failed to delete user" in
       set_user (users_failed message);;
       toast_error message;;
       throw error).

Definition users_clearError : M unit :=
  set_user (fun s =>
    UserState.mk (UserState.users s) (UserState.currentUser s)
                 (UserState.isLoading s) None).

(** ** src/store/authStore.ts: useAuthorizationStore *)

Definition initial_authorization : AuthorizationState.t :=
  AuthorizationState.mk (Some []) (Some []) ∅ ∅ false None.

Definition authorization_begin (s : AuthorizationState.t)
    : AuthorizationState.t :=
  AuthorizationState.mk
    (AuthorizationState.roles s) (AuthorizationState.permissions s)
    (AuthorizationState.userRoles s) (AuthorizationState.userPermissions s)
    true None.

Definition authorization_failed (message : string)
    (s : AuthorizationState.t) : AuthorizationState.t :=
  AuthorizationState.mk
    (AuthorizationState.roles s) (AuthorizationState.permissions s)
    (AuthorizationState.userRoles s) (AuthorizationState.userPermissions s)
    false (Some message).

Definition fetchRoles : M unit :=
  set_authorization authorization_begin;;
  try_catch
    (let* response := api_getRoles net in
     set_authorization (fun s =>
       AuthorizationState.mk
         (map Some <$> ApiResponse.data response)
         (AuthorizationState.permissions s)
         (AuthorizationState.userRoles s)
         (AuthorizationState.userPermissions s)
         false (AuthorizationState.error s)))
    (fun error =>
       let message :=
         or_else (error_response_error error) "Failed to fetch roles" in
       set_authorization (authorization_failed message)).

Definition fetchPermissions : M unit :=
  set_authorization authorization_begin;;
  try_catch
    (let* response := api_getPermissions net in
     set_authorization (fun s =>
       AuthorizationState.mk
         (AuthorizationState.roles s)
         (map Some <$> ApiResponse.data response)
         (AuthorizationState.userRoles s)
         (AuthorizationState.userPermissions s)
         false (AuthorizationState.error s)))
    (fun error =>
       let message :=
         or_else (error_response_error error)
                 "Failed to fetch permissions" in
       set_authorization (authorization_failed message)).

(** [[...xs, x]] *)
Definition spread_append {A} (xs : option (list A)) (x : A)
    : Outcome (list A) :=
  match xs with
  | Some l => Ok (l ++ [x])
  | None => not_iterable
  end.

Definition createRole (roleData : CreateRoleRequest.t) : M unit :=
  set_authorization authorization_begin;;
  try_catch
    (let* response := api_createRole net roleData in
     let newRole := ApiResponse.data response in
     let* state := get_authorization in
     let* roles :=
       lift (spread_append (AuthorizationState.roles state) newRole) in
     set_authorization (fun state =>
       AuthorizationState.mk
         (Some roles)
         (AuthorizationState.permissions state)
         (AuthorizationState.userRoles state)
         (AuthorizationState.userPermissions state)
         false (AuthorizationState.error state));;
     toast_success "Role created successfully!")
    (fun error =>
       let message :=
         or_else (error_response_error error) "Failed to create role" in
       set_authorization (authorization_failed message);;
       throw error).

Definition createPermission (permissionData : CreatePermissionRequest.t)
    : M unit :=
  set_authorization authorization_begin;;
  try_catch
    (let* response := api_createPermission net permissionData in
     let newPermission := ApiResponse.data response in
     let* state := get_authorization in
     let* permissions :=
       lift (spread_append (AuthorizationState.permissions state)
                           newPermission) in
     set_authorization (fun state =>
       AuthorizationState.mk
         (AuthorizationState.roles state)
         (Some permissions)
         (AuthorizationState.userRoles state)
         (AuthorizationState.userPermissions state)
         false (AuthorizationState.error state));;
     toast_success "Permission created successfully!")
    (fun error =>
       let message :=
         or_else (error_response_error error)
                 "Failed to create permission" in
       set_authorization (authorization_failed message);;
       throw error).

Definition fetchUserRoles (userId : string) : M unit :=
  try_catch
    (let* response := api_getUserRoles net userId in
     set_authorization (fun state =>
       AuthorizationState.mk
         (AuthorizationState.roles state)
         (AuthorizationState.permissions state)
         (<[userId := ApiResponse.data response]>
            (AuthorizationState.userRoles state))
         (AuthorizationState.userPermissions state)
         (AuthorizationState.isLoading state)
         (AuthorizationState.error state)))
    (fun _ => console "Failed to fetch user roles:").

Definition fetchUserPermissions (userId : string) : M unit :=
  try_catch
    (let* response := api_getUserPermissions net userId in
     set_authorization (fun state =>
       AuthorizationState.mk
         (AuthorizationState.roles state)
         (AuthorizationState.permissions state)
         (AuthorizationState.userRoles state)
         (<[userId := ApiResponse.data response]>
            (AuthorizationState.userPermissions state))
         (AuthorizationState.isLoading state)
         (AuthorizationState.error state)))
    (fun _ => console "Failed to fetch user permissions:").

Definition assignRole (userId roleId : string) : M unit :=
  try_catch
    (api_assignRole net userId roleId;;
     fetchUserRoles userId;;
     toast_success "Role assigned successfully!")
    (fun error =>
       let message :=
         or_else (error_response_error error) "Failed to assign role" in
       toast_error message;;
       throw error).

Definition revokeRole (userId roleId : string) : M unit :=
  try_catch
    (api_revokeRole net userId roleId;;
     fetchUserRoles userId;;
     toast_success "Role revoked successfully!")
    (fun error =>
       let message :=
         or_else (error_response_error error) "Failed to revoke role" in
       toast_error message;;
       throw error).

Definition checkPermission (userId resource action : string) : M bool :=
  try_catch
    (let* response := api_checkPermission net userId resource action in
     lift (match ApiResponse.data response with
           | Some d => Ok (PermissionCheck.hasPermission d)
           | None => undefined_property
           end))
    (fun _ =>
       console "Permission check failed:";;
       ret false).

Definition authorization_clearError : M unit :=
  set_authorization (fun s =>
    AuthorizationState.mk
      (AuthorizationState.roles s) (AuthorizationState.permissions s)
      (AuthorizationState.userRoles s)
      (AuthorizationState.userPermissions s)
      (AuthorizationState.isLoading s) None).

End Stores.

(** ** src/types/index.ts: constants *)

Definition USER_TYPES : gmap Z string :=
  list_to_map
    [(1, "GUEST_USER"); (2, "DEPT_USER"); (3, "MANAGER"); (4, "DEPT_USER");
     (5, "DEPT_HEAD"); (8, "ORG_ADMIN"); (10, "SUPER_ADMIN")]%Z.

(** ** utils: names and colours of user types *)

Definition getUserTypeName (typeId : Z) : string :=
  or_else (USER_TYPES !! typeId) "UNKNOWN".

Definition getUserTypeColor (typeId : Z) : string :=
  match typeId with
  | 10 => "bg-purple-100 text-purple-800"
  | 8 => "bg-blue-100 text-blue-800"
  | 5 => "bg-indigo-100 text-indigo-800"
  | 3 => "bg-cyan-100 text-cyan-800"
  | 2 | 4 => "bg-green-100 text-green-800"
  | 1 => "bg-gray-100 text-gray-800"
  | _ => "bg-gray-100 text-gray-800"
  end%Z.

(** src/pages/users/UsersPage.tsx *)
Definition getUserTypeBadgeVariant (typeId : Z) : string :=
  match typeId with
  | 10 => "danger"
  | 8 => "info"
  | 5 => "info"
  | 3 => "warning"
  | _ => "default"
  end%Z.

(** ** src/services/api.ts and utils: error messages *)

(** [error.response?.data?.message] *)
Definition error_response_message (err : Error) : option string :=
  match err with
  | AxiosError (Some r) _ =>
      match ErrorResponse.data r with
      | Some d => ApiResponse.message d
      | None => None
      end
  | _ => None
  end.

Definition extractErrorMessage (error : Error) : string :=
  if truthy (error_response_error error)
  then js_string (error_response_error error)
  else if truthy (error_response_message error)
       then js_string (error_response_message error)
       else if truthy (error_message error)
            then js_string (error_message error)
            else "An unexpected error occurred".

Definition handleApiError (error : Error) (defaultMessage : string)
    : M string :=
  let message := extractErrorMessage error in
  console "API Error:";;
  ret (or_else (Some message) defaultMessage).

(** ** utils: permission names *)

(** [s.split(sep)] for a separator of one character.  The separator used
    below is an ASCII character, so splitting the bytes of the string and
    splitting its UTF-16 code units cut at the same places. *)
Fixpoint split (sep : ascii) (s : string) : list string :=
  match s with
  | EmptyString => [EmptyString]
  | String c s' =>
      if Ascii.eqb c sep then EmptyString :: split sep s'
      else match split sep s' with
           | [] => [String c EmptyString]
           | part :: parts => String c part :: parts
           end
  end.

Definition formatPermissionName (resource action : string) : string :=
  resource +:+ "." +:+ action.

(** the pair stands for [{ resource, action }] *)
Definition parsePermissionName (permissionName : string) : string * string :=
  let parts := split "." permissionName in
  (or_else (parts !! 0%nat) "", or_else (parts !! 1%nat) "").

(** ** utils: validation *)

(** A JavaScript string is a sequence of UTF-16 code units, and a regular
    expression without the [u] flag matches code unit by code unit. *)
Definition CodeUnit := N.

(** the regular expressions that the validators use *)
Inductive RegExp :=
| Never
| Empty
| Class (accepts : CodeUnit -> bool)
| Seq (r1 r2 : RegExp)
| Alt (r1 r2 : RegExp)
| Star (r : RegExp).

(** [r+] *)
Definition Plus (r : RegExp) : RegExp := Seq r (Star r).

(** [r{0,n}] *)
Fixpoint upto (n : nat) (r : RegExp) : RegExp :=
  match n with
  | O => Empty
  | S n => Alt Empty (Seq r (upto n r))
  end.

(** [r{n}] followed by [rest] *)
Fixpoint times (n : nat) (r rest : RegExp) : RegExp :=
  match n with
  | O => rest
  | S n => Seq r (times n r rest)
  end.

(** [r{lo,hi}] *)
Definition between (lo hi : nat) (r : RegExp) : RegExp :=
  if (lo <=? hi)%nat then times lo r (upto (hi - lo) r) else Never.

Fixpoint nullable (r : RegExp) : bool :=
  match r with
  | Never => false
  | Empty => true
  | Class _ => false
  | Seq r1 r2 => nullable r1 && nullable r2
  | Alt r1 r2 => nullable r1 || nullable r2
  | Star _ => true
  end.

(** what is left of [r] after the code unit [c] *)
Fixpoint derivative (c : CodeUnit) (r : RegExp) : RegExp :=
  match r with
  | Never => Never
  | Empty => Never
  | Class accepts => if accepts c then Empty else Never
  | Seq r1 r2 =>
      if nullable r1
      then Alt (Seq (derivative c r1) r2) (derivative c r2)
      else Seq (derivative c r1) r2
  | Alt r1 r2 => Alt (derivative c r1) (derivative c r2)
  | Star r => Seq (derivative c r) (Star r)
  end.

(** [/^r$/.test(s)]: the whole of [s] matches [r] *)
Fixpoint test (r : RegExp) (s : list CodeUnit) : bool :=
  match s with
  | [] => nullable r
  | c :: s => test (derivative c r) s
  end.

(** [\s]: white space and line terminators *)
Definition white_space (c : CodeUnit) : bool :=
  bool_decide (c ∈ [9; 10; 11; 12; 13; 32; 160; 5760; 8232; 8233; 8239;
                    8287; 12288; 65279]%N)
  || (8192 <=? c)%N && (c <=? 8202)%N.

Definition at_sign : CodeUnit := 64%N.
Definition full_stop : CodeUnit := 46%N.

(** [[^\s@]] *)
Definition email_char (c : CodeUnit) : bool :=
  negb (white_space c || (c =? at_sign)%N).

(** [[a-zA-Z0-9_]] *)
Definition username_char (c : CodeUnit) : bool :=
  (97 <=? c)%N && (c <=? 122)%N || (65 <=? c)%N && (c <=? 90)%N ||
  (48 <=? c)%N && (c <=? 57)%N || (c =? 95)%N.

Definition emailRegex : RegExp :=
  Seq (Plus (Class email_char))
    (Seq (Class (N.eqb at_sign))
       (Seq (Plus (Class email_char))
          (Seq (Class (N.eqb full_stop)) (Plus (Class email_char))))).

Definition isValidEmail (email : list CodeUnit) : bool :=
  test emailRegex email.

Definition isValidPassword (password : list CodeUnit) : bool :=
  (8 <=? length password)%nat.

Definition usernameRegex : RegExp := between 3 20 (Class username_char).

Definition isValidUsername (username : list CodeUnit) : bool :=
  test usernameRegex username.

(** * Vocabulary of the statements *)

(** ** What an action leaves alone

    [m] respects a preorder [R] on worlds when every run of [m] ends in a
    world related to the one it started from.  Two preorders are used:
    the stores are the same, and the log has only grown. *)

Definition respects (R : World.t -> World.t -> Prop) {A} (m : M A) : Prop :=
  forall w, R w (m w).2.

(** the three stores and the persisted session are untouched *)
Definition same_stores (w w' : World.t) : Prop :=
  auth w' = auth w /\ userStore w' = userStore w /\
  authorization w' = authorization w /\ auth_storage w' = auth_storage w.

(** the log is only appended to *)
Definition log_grows (w w' : World.t) : Prop :=
  exists evs, log w' = log w ++ evs.

(** what a run has added to the log *)
Definition events_since (w w' : World.t) : list Event :=
  drop (length (log w)) (log w').

(** the requests among some events, in the order they were sent *)
Definition http_calls (evs : list Event) : list (Endpoint * Config.t) :=
  omap (fun ev => match ev with EvHttp e c => Some (e, c) | _ => None end) evs.

(** ** The HTTP client *)

(** A body handed to the caller is a 2xx body of the gateway for this
    route and this request data; an error is one made by axios. *)
Definition from_gateway
    (net : forall e : Endpoint, list Event -> Config.t -> NetResult e)
    (e : Endpoint) (d : RequestData) (o : Outcome (Body e)) : Prop :=
  match o with
  | Ok body =>
      exists hist cfg, net e hist cfg = Fulfilled body /\ Config.data cfg = d
  | Err err => exists r m, err = AxiosError r m
  end.

(** the request that the interceptor sends to refresh the token *)
Definition refresh_request (refreshToken : string) : Config.t :=
  Config.mk (RefreshData refreshToken) None false.

(** the original request as it is replayed: flagged, with the new token *)
Definition replay_request (config : Config.t) (accessToken : string)
    : Config.t :=
  Config.mk (Config.data config) (Some ("Bearer " +:+ accessToken)) true.

(** [localStorage] after [clearTokens] *)
Definition clear_credentials (ls : gmap string string) : gmap string string :=
  delete "user" (delete "refreshToken" (delete "accessToken" ls)).

(** ** The session store *)

Definition session_invariant (s : AuthState.t) : Prop :=
  AuthState.isAuthenticated s = true <->
  is_Some (AuthState.user s) /\ is_Some (AuthState.token s).

(** [RefreshToken] is the call through the store; [SavedRefreshToken]
    runs the function through a reference that was taken while the member
    still held it. *)
Inductive AuthAction :=
| Login (credentials : LoginRequest.t)
| Logout
| RefreshToken
| SavedRefreshToken
| ClearError
| SetLoading (loading : bool).

Definition run_auth
    (net : forall e : Endpoint, list Event -> Config.t -> NetResult e)
    (a : AuthAction) : M unit :=
  match a with
  | Login c => login net c
  | Logout => logout net
  | RefreshToken => call_refreshToken net
  | SavedRefreshToken => refreshToken net
  | ClearError => auth_clearError
  | SetLoading b => setLoading b
  end.

(** a well-formed answer to a login or a refresh names the access token
    and the identity *)
Definition well_formed_login
    (net : forall e : Endpoint, list Event -> Config.t -> NetResult e)
    : Prop :=
  forall hist cfg body d,
    net PostLogin hist cfg = Fulfilled body ->
    ApiResponse.data body = Some d ->
    is_Some (LoginResponse.accessToken d) /\
    is_Some (LoginResponse.userInfo d).

Definition well_formed_refresh
    (net : forall e : Endpoint, list Event -> Config.t -> NetResult e)
    : Prop :=
  forall hist cfg body d,
    net PostRefresh hist cfg = Fulfilled body ->
    ApiResponse.data body = Some d ->
    is_Some (RefreshResponse.accessToken d) /\
    is_Some (RefreshResponse.userInfo d).

Definition same_credentials (s s' : AuthState.t) : Prop :=
  AuthState.user s' = AuthState.user s /\
  AuthState.token s' = AuthState.token s /\
  AuthState.refreshToken s' = AuthState.refreshToken s /\
  AuthState.isAuthenticated s' = AuthState.isAuthenticated s.

(** ** The resource stores *)

(** the records of a collection that carry a given id *)
Definition records_with_id (userId : string) (users : list (option User.t))
    : list User.t :=
  filter (fun u => User.userId u = userId) (omap id users).

(** the actions that announce themselves with
    [set({ isLoading: true, error: null })] *)
Inductive LoadingAction :=
| FetchUsers
| FetchUserById (userId : string)
| CreateUser (userData : CreateUserRequest.t)
| UpdateUser (userId : string) (userData : PartialUserRequest.t)
| DeleteUserAction (userId : string)
| FetchRoles
| FetchPermissions
| CreateRole (roleData : CreateRoleRequest.t)
| CreatePermission (permissionData : CreatePermissionRequest.t).

(** the actions on the per-user caches *)
Inductive CacheAction :=
| AssignRole (userId roleId : string)
| RevokeRole (userId roleId : string)
| FetchUserRoles (userId : string)
| FetchUserPermissions (userId : string).

Definition run_loading
    (net : forall e : Endpoint, list Event -> Config.t -> NetResult e)
    (a : LoadingAction) : M unit :=
  match a with
  | FetchUsers => fetchUsers net
  | FetchUserById userId => fetchUserById net userId
  | CreateUser userData => createUser net userData
  | UpdateUser userId userData => updateUser net userId userData
  | DeleteUserAction userId => deleteUser net userId
  | FetchRoles => fetchRoles net
  | FetchPermissions => fetchPermissions net
  | CreateRole roleData => createRole net roleData
  | CreatePermission permissionData => createPermission net permissionData
  end.

Definition run_cache
    (net : forall e : Endpoint, list Event -> Config.t -> NetResult e)
    (a : CacheAction) : M unit :=
  match a with
  | AssignRole userId roleId => assignRole net userId roleId
  | RevokeRole userId roleId => revokeRole net userId roleId
  | FetchUserRoles userId => fetchUserRoles net userId
  | FetchUserPermissions userId => fetchUserPermissions net userId
  end.

(** a snapshot taken by [set({ isLoading: true, error: null })] *)
Definition begins_loading (s : Snapshot) : Prop :=
  match s with
  | UserSnap s => UserState.isLoading s = true /\ UserState.error s = None
  | AuthorizationSnap s =>
      AuthorizationState.isLoading s = true /\
      AuthorizationState.error s = None
  | AuthSnap _ => False
  end.

(** [isLoading] and [error] of the authorization store are as they were *)
Definition same_flags (w w' : World.t) : Prop :=
  AuthorizationState.isLoading (authorization w')
    = AuthorizationState.isLoading (authorization w) /\
  AuthorizationState.error (authorization w')
    = AuthorizationState.error (authorization w).

Definition succeeded {A} (o : Outcome A) : Prop :=
  match o with Ok _ => True | Err _ => False end.

Definition failed {A} (o : Outcome A) : Prop :=
  match o with Ok _ => False | Err _ => True end.

(** ** Concrete gateways and worlds *)

Definition envelope {T} (d : option T) : ApiResponse.t T :=
  ApiResponse.mk true None d None None None.

Definition alice_info : UserInfo.t :=
  UserInfo.mk "u1" "alice@example.org" "alice" "Alice" 1 1 "ADMIN" "ACTIVE".

Definition alice : User.t :=
  User.mk "u1" "alice@example.org" "alice" "Alice" 1 1 1 1 1
          "2024-01-01" "2024-01-01".

Definition alice_renamed : User.t :=
  User.mk "u1" "alice@example.org" "alice" "Alice B." 1 1 1 1 1
          "2024-01-01" "2024-02-01".

Definition bob : User.t :=
  User.mk "u2" "bob@example.org" "bob" "Bob" 1 2 1 1 1
          "2024-01-02" "2024-01-02".

Definition alice_request : CreateUserRequest.t :=
  CreateUserRequest.mk "alice@example.org" "alice" "Alice" "secret"
                       1 1 1 1 1.

Definition rename_request : PartialUserRequest.t :=
  PartialUserRequest.mk None None (Some "Alice B.") None None None None None
                        None.

Definition alice_login : LoginRequest.t :=
  LoginRequest.mk "alice@example.org" "secret".

(** A gateway that serves every route of the session and of the user
    store.  [refetch] says whether it also serves the role list of a user,
    or answers 500 there. *)
Definition gateway (refetch : bool) (e : Endpoint) (hist : list Event)
    (cfg : Config.t) : NetResult e :=
  match e return NetResult e with
  | PostLogin =>
      @Fulfilled PostLogin (envelope (Some (LoginResponse.mk
        (Some "t1") (Some "r1") (Some "Bearer") (Some 3600%Z)
        (Some alice_info) (Some "2024-03-01"))))
  | PostRefresh =>
      @Fulfilled PostRefresh (ApiResponse.mk true None
        (Some (RefreshResponse.mk (Some "t2") (Some alice_info)))
        None None (Some "t2"))
  | PostUser => @Fulfilled PostUser (envelope (Some alice))
  | PutUser i => @Fulfilled (PutUser i) (envelope (Some alice_renamed))
  | PostAssignRole => @Fulfilled PostAssignRole (envelope (Some tt))
  | DeleteUserRole u r =>
      @Fulfilled (DeleteUserRole u r) (envelope (Some tt))
  | GetUserRoles u =>
      if refetch then @Fulfilled (GetUserRoles u) (envelope (Some []))
      else Rejected (ErrorResponse.mk 500 None)
                    "Request failed with status code 500"
  | PostCheckPermission =>
      @Fulfilled PostCheckPermission
        (envelope (Some (PermissionCheck.mk true)))
  | _ => Unreachable "Network Error"
  end.

(** A gateway that no longer accepts the access token: every route
    answers 401, except the refresh route, which hands out a new token. *)
Definition expired (e : Endpoint) (hist : list Event) (cfg : Config.t)
    : NetResult e :=
  match e return NetResult e with
  | PostRefresh =>
      @Fulfilled PostRefresh
        (ApiResponse.mk true None None None None (Some "fresh"))
  | _ => Rejected (ErrorResponse.mk 401 None)
                  "Request failed with status code 401"
  end.

(** no network *)
Definition offline (e : Endpoint) (hist : list Event) (cfg : Config.t)
    : NetResult e :=
  Unreachable "Network Error".

Definition initial_world : World.t :=
  World.mk ∅ None "/" initial_auth initial_users initial_authorization [].

(** a world after a login: both tokens are in [localStorage] and in the
    session store *)
Definition signed_in : World.t :=
  World.mk (<["accessToken" := "stale"]> (<["refreshToken" := "r0"]> ∅))
           (Some (Persisted.mk (Some alice_info) (Some "stale") (Some "r0")
                               true))
           "/users"
           (AuthState.mk (Some alice_info) (Some "stale")
                         (RefreshValue (Some "r0")) true false)
           initial_users initial_authorization [].

(** a world whose user collection holds [records], with [current] selected *)
Definition with_users (records : list (option User.t))
    (current : option User.t) : World.t :=
  World.mk ∅ None "/users" initial_auth
           (UserState.mk records current false None)
           initial_authorization [].

Definition plain_request : Config.t := Config.mk NoData None false.

(** ** More vocabulary: runs of the client *)

(** the toast of "Handle other errors" *)
Definition error_toast (error : Error) : list Event :=
  if truthy (error_response_error error)
  then [EvToastError (js_string (error_response_error error))]
  else if truthy (error_message error)
       then [EvToastError (js_string (error_message error))]
       else [].

(** the outcome that axios makes of an answer *)
Definition answer_outcome {e} (answer : NetResult e) : Outcome (Body e) :=
  match answer with
  | Fulfilled body => Ok body
  | Rejected r m => Err (AxiosError (Some r) m)
  | Unreachable m => Err (AxiosError None m)
  end.

Definition outcome_toast {A} (o : Outcome A) : list Event :=
  match o with
  | Ok _ => []
  | Err error => error_toast error
  end.

Definition outcome_error {A} (o : Outcome A) : option Error :=
  match o with
  | Ok _ => None
  | Err e => Some e
  end.

(** an answer that the response interceptor does not take as a reason to
    refresh: anything but a 401 to a request without the flag while a
    refresh token is stored *)
Definition final_answer {e} (config : Config.t) (stored : option string)
    (answer : NetResult e) : Prop :=
  match answer with
  | Rejected r _ =>
      ErrorResponse.status r <> 401%Z \/ Config._retry config = true \/
      truthy stored = false
  | _ => True
  end.

(** The answer of the gateway that decides a call of the client.  It is
    the answer to the request itself, unless that is a 401 to an unflagged
    request while a refresh token is stored: then it is the answer to the
    replay when the refresh is fulfilled, and there is none when the
    refresh fails. *)
Definition deciding_answer
    (net : forall e : Endpoint, list Event -> Config.t -> NetResult e)
    (e : Endpoint) (config : Config.t) (w : World.t)
    : option (NetResult e) :=
  let original := authorize (localStorage w !! "accessToken") config in
  let stored := localStorage w !! "refreshToken" in
  match net e (log w) original with
  | Rejected r m =>
      if bool_decide (ErrorResponse.status r = 401%Z)
         && negb (Config._retry config) && truthy stored
      then
        let refresh := refresh_request (js_string stored) in
        match net PostRefresh (log w ++ [EvHttp e original]) refresh with
        | Fulfilled body =>
            Some (net e (log w ++ [EvHttp e original;
                                   EvHttp PostRefresh refresh])
                      (replay_request config
                         (js_string (ApiResponse.accessToken body))))
        | _ => None
        end
      else Some (Rejected r m)
  | answer => Some answer
  end.

(** the permission that an answer grants: [hasPermission] of a fulfilled
    answer with [data], and none in every other case *)
Definition granted (answer : option (NetResult PostCheckPermission)) : bool :=
  match answer with
  | Some (Fulfilled body) =>
      match ApiResponse.data body with
      | Some d => PermissionCheck.hasPermission d
      | None => false
      end
  | _ => false
  end.

(** the world with more events in its log and nothing else changed *)
Definition with_events (evs : list Event) (w : World.t) : World.t :=
  World.mk (localStorage w) (auth_storage w) (href w) (auth w)
           (userStore w) (authorization w) (log w ++ evs).

(** ** More vocabulary: the stores *)

(** the three actions of the user store that change the collection *)
Inductive UserMutation :=
| CreateUserM (userData : CreateUserRequest.t)
| UpdateUserM (userId : string) (userData : PartialUserRequest.t)
| DeleteUserM (userId : string).

Definition run_mutation
    (net : forall e : Endpoint, list Event -> Config.t -> NetResult e)
    (m : UserMutation) : M unit :=
  match m with
  | CreateUserM userData => createUser net userData
  | UpdateUserM userId userData => updateUser net userId userData
  | DeleteUserM userId => deleteUser net userId
  end.

(** the error, if any, of the request that a mutation sends *)
Definition mutation_request_error
    (net : forall e : Endpoint, list Event -> Config.t -> NetResult e)
    (m : UserMutation) (w : World.t) : option Error :=
  match m with
  | CreateUserM userData => outcome_error (api_createUser net userData w).1
  | UpdateUserM userId userData =>
      outcome_error (api_updateUser net userId userData w).1
  | DeleteUserM userId => outcome_error (api_deleteUser net userId w).1
  end.

(** the fallback message of its [catch] clause *)
Definition mutation_fallback (m : UserMutation) : string :=
  match m with
  | CreateUserM _ => "Failed to create user"
  | UpdateUserM _ _ => "Failed to update user"
  | DeleteUserM _ => "Failed to delete user"
  end.

(** a collection without holes *)
Definition without_holes (users : list (option User.t)) : Prop :=
  Forall is_Some users.

Inductive Store := SessionStore | UserStore | AuthorizationStore.

(** every store but [s] is as it was *)
Definition untouched (s : Store) (w w' : World.t) : Prop :=
  match s with
  | SessionStore =>
      userStore w' = userStore w /\ authorization w' = authorization w
  | UserStore =>
      auth w' = auth w /\ auth_storage w' = auth_storage w /\
      authorization w' = authorization w
  | AuthorizationStore =>
      auth w' = auth w /\ auth_storage w' = auth_storage w /\
      userStore w' = userStore w
  end.

Definition store_of (a : LoadingAction) : Store :=
  match a with
  | FetchUsers | FetchUserById _ | CreateUser _ | UpdateUser _ _
  | DeleteUserAction _ => UserStore
  | _ => AuthorizationStore
  end.

(** the actions that record a failure without throwing *)
Definition is_fetch (a : LoadingAction) : bool :=
  match a with
  | FetchUsers | FetchUserById _ | FetchRoles | FetchPermissions => true
  | _ => false
  end.

(** [isLoading] and [error] of the store of an action *)
Definition flags_of (a : LoadingAction) (w : World.t) : bool * option string :=
  match store_of a with
  | UserStore =>
      (UserState.isLoading (userStore w), UserState.error (userStore w))
  | _ =>
      (AuthorizationState.isLoading (authorization w),
       AuthorizationState.error (authorization w))
  end.

(** ** More vocabulary: strings *)

(** how often a character occurs in a string *)
Fixpoint occurrences (c : ascii) (s : string) : nat :=
  match s with
  | EmptyString => 0
  | String c' s' => (if Ascii.eqb c' c then 1 else 0) + occurrences c s'
  end.

(** [parts.join(sep)] *)
Fixpoint join (sep : ascii) (parts : list string) : string :=
  match parts with
  | [] => EmptyString
  | [part] => part
  | part :: parts => part +:+ String sep (join sep parts)
  end.

(** ** More vocabulary: regular expressions *)

(** the strings of a regular expression *)
Inductive Matches : RegExp -> list CodeUnit -> Prop :=
| MatchesEmpty : Matches Empty []
| MatchesClass accepts c : accepts c = true -> Matches (Class accepts) [c]
| MatchesSeq r1 r2 s1 s2 :
    Matches r1 s1 -> Matches r2 s2 -> Matches (Seq r1 r2) (s1 ++ s2)
| MatchesAltL r1 r2 s : Matches r1 s -> Matches (Alt r1 r2) s
| MatchesAltR r1 r2 s : Matches r2 s -> Matches (Alt r1 r2) s
| MatchesStarNil r : Matches (Star r) []
| MatchesStarApp r s1 s2 :
    Matches r s1 -> Matches (Star r) s2 -> Matches (Star r) (s1 ++ s2).

(** ** More gateways and worlds *)

(** a gateway that fulfils every request with an envelope without [data] *)
Definition bare (e : Endpoint) (hist : list Event) (cfg : Config.t)
    : NetResult e :=
  Fulfilled (envelope None).

(** As [expired], but the refresh route answers in the envelope that the
    session store expects: the new token is under [data], not at the top
    level of the body. *)
Definition expired_enveloped (e : Endpoint) (hist : list Event)
    (cfg : Config.t) : NetResult e :=
  match e return NetResult e with
  | PostRefresh =>
      @Fulfilled PostRefresh
        (envelope (Some (RefreshResponse.mk (Some "fresh") (Some alice_info))))
  | _ => Rejected (ErrorResponse.mk 401 None)
                  "Request failed with status code 401"
  end.

(** the answer of [gateway] to a login, and to a refresh *)
Definition alice_session : LoginResponse.t :=
  LoginResponse.mk (Some "t1") (Some "r1") (Some "Bearer") (Some 3600%Z)
                   (Some alice_info) (Some "2024-03-01").

Definition alice_refreshed : RefreshResponse.t :=
  RefreshResponse.mk (Some "t2") (Some alice_info).

Definition auditor_request : CreateRoleRequest.t :=
  CreateRoleRequest.mk "auditor" None 1 None None None.

(** * Properties *)

(** ** Actions that respect a preorder *)

Section Respects.

Variable R : World.t -> World.t -> Prop.
Hypothesis R_refl : forall w, R w w.
Hypothesis R_trans : forall w1 w2 w3, R w1 w2 -> R w2 w3 -> R w1 w3.

Lemma respects_ret {A} (a : A) : respects R (ret a).
Proof. intros w. apply R_refl. Qed.

Lemma respects_throw {A} (e : Error) : respects R (@throw A e).
Proof. intros w. apply R_refl. Qed.

Lemma respects_lift {A} (o : Outcome A) : respects R (lift o).
Proof. intros w. apply R_refl. Qed.

Lemma respects_getItem k : respects R (getItem k).
Proof. intros w. apply R_refl. Qed.

Lemma respects_bind {A B} (m : M A) (k : A -> M B) :
  respects R m -> (forall a, respects R (k a)) -> respects R (bind m k).
Proof.
  intros Hm Hk w. unfold bind. specialize (Hm w).
  destruct (m w) as [[a|e] w1]; simpl in *; [|done].
  eapply R_trans; [exact Hm|apply Hk].
Qed.

Lemma respects_try_catch {A} (m : M A) (h : Error -> M A) :
  respects R m -> (forall e, respects R (h e)) -> respects R (try_catch m h).
Proof.
  intros Hm Hh w. unfold try_catch. specialize (Hm w).
  destruct (m w) as [[a|e] w1]; simpl in *; [done|].
  eapply R_trans; [exact Hm|apply Hh].
Qed.

End Respects.

Lemma same_stores_refl w : same_stores w w.
Proof. by repeat split. Qed.

Lemma same_stores_trans w1 w2 w3 :
  same_stores w1 w2 -> same_stores w2 w3 -> same_stores w1 w3.
Proof. intros (?&?&?&?) (?&?&?&?). repeat split; congruence. Qed.

Lemma log_grows_refl w : log_grows w w.
Proof. exists []. by rewrite app_nil_r. Qed.

Lemma log_grows_trans w1 w2 w3 :
  log_grows w1 w2 -> log_grows w2 w3 -> log_grows w1 w3.
Proof.
  intros [e1 H1] [e2 H2]. exists (e1 ++ e2). by rewrite H2, H1, app_assoc.
Qed.

Lemma events_since_app w w' evs :
  log w' = log w ++ evs -> events_since w w' = evs.
Proof. intros H. unfold events_since. by rewrite H, drop_app_length. Qed.

Lemma http_calls_app evs1 evs2 :
  http_calls (evs1 ++ evs2) = http_calls evs1 ++ http_calls evs2.
Proof. apply omap_app. Qed.

(** Peel the combinators of an action; [leaf] closes the calls that are
    known to respect the preorder and is tried before a call is opened. *)
Ltac peel R_refl R_trans leaf :=
  repeat first
    [ leaf
    | apply (respects_ret _ R_refl)
    | apply (respects_throw _ R_refl)
    | apply (respects_lift _ R_refl)
    | apply (respects_getItem _ R_refl)
    | apply (respects_bind _ R_trans); [|intros ?]
    | apply (respects_try_catch _ R_trans); [|intros ?]
    | assumption
    | case_match ].

Section Primitives.

Lemma setItem_stores k v : respects same_stores (setItem k v).
Proof. intros w. by repeat split. Qed.
Lemma removeItem_stores k : respects same_stores (removeItem k).
Proof. intros w. by repeat split. Qed.
Lemma emit_stores ev : respects same_stores (emit ev).
Proof. intros w. by repeat split. Qed.
Lemma navigate_stores h : respects same_stores (navigate h).
Proof. intros w. by repeat split. Qed.

Lemma setItem_log k v : respects log_grows (setItem k v).
Proof. intros w. exists []. simpl. by rewrite app_nil_r. Qed.
Lemma removeItem_log k : respects log_grows (removeItem k).
Proof. intros w. exists []. simpl. by rewrite app_nil_r. Qed.
Lemma emit_log ev : respects log_grows (emit ev).
Proof. intros w. by exists [ev]. Qed.
Lemma navigate_log h : respects log_grows (navigate h).
Proof. intros w. by exists [EvNavigate h]. Qed.
Lemma set_auth_log f : respects log_grows (set_auth f).
Proof. intros w. by eexists [_]. Qed.
Lemma set_user_log f : respects log_grows (set_user f).
Proof. intros w. by eexists [_]. Qed.
Lemma set_authorization_log f : respects log_grows (set_authorization f).
Proof. intros w. by eexists [_]. Qed.
Lemma get_auth_log : respects log_grows get_auth.
Proof. intros w. apply log_grows_refl. Qed.
Lemma get_user_log : respects log_grows get_user.
Proof. intros w. apply log_grows_refl. Qed.
Lemma get_authorization_log : respects log_grows get_authorization.
Proof. intros w. apply log_grows_refl. Qed.

End Primitives.

Ltac stores_leaf :=
  first [ apply setItem_stores | apply removeItem_stores
        | apply emit_stores | apply navigate_stores ].

Ltac grows_leaf :=
  first [ apply setItem_log | apply removeItem_log | apply emit_log
        | apply navigate_log | apply set_auth_log | apply set_user_log
        | apply set_authorization_log | apply get_auth_log
        | apply get_user_log | apply get_authorization_log ].

Section ClientFacts.

Variable net : forall e : Endpoint, list Event -> Config.t -> NetResult e.

Lemma transport_stores e cfg : respects same_stores (transport net e cfg).
Proof.
  intros w. unfold transport. by destruct (net e (log w) cfg); repeat split.
Qed.

Lemma transport_log e cfg : respects log_grows (transport net e cfg).
Proof.
  intros w. unfold transport.
  by destruct (net e (log w) cfg); exists [EvHttp e cfg].
Qed.

Lemma handle_other_errors_stores {A} err :
  respects same_stores (@handle_other_errors A err).
Proof.
  unfold handle_other_errors, toast_error.
  peel same_stores_refl same_stores_trans stores_leaf.
Qed.

Lemma handle_other_errors_log {A} err :
  respects log_grows (@handle_other_errors A err).
Proof.
  unfold handle_other_errors, toast_error.
  peel log_grows_refl log_grows_trans grows_leaf.
Qed.

Lemma client_call_stores client e cfg :
  (forall e cfg, respects same_stores (client e cfg)) ->
  respects same_stores (client_call net client e cfg).
Proof.
  intros IH. unfold client_call, request_interceptor, response_rejected,
    ApiClient_refreshToken, clearTokens.
  peel same_stores_refl same_stores_trans
    ltac:(first [ stores_leaf | apply transport_stores
                | apply handle_other_errors_stores | apply IH ]).
Qed.

Lemma client_call_log client e cfg :
  (forall e cfg, respects log_grows (client e cfg)) ->
  respects log_grows (client_call net client e cfg).
Proof.
  intros IH. unfold client_call, request_interceptor, response_rejected,
    ApiClient_refreshToken, clearTokens.
  peel log_grows_refl log_grows_trans
    ltac:(first [ grows_leaf | apply transport_log
                | apply handle_other_errors_log | apply IH ]).
Qed.

Lemma client_upto_stores depth e cfg :
  respects same_stores (client_upto net depth e cfg).
Proof.
  revert e cfg. induction depth as [|depth IH]; intros e cfg; simpl.
  - apply respects_throw, same_stores_refl.
  - by apply client_call_stores.
Qed.

Lemma client_upto_log depth e cfg :
  respects log_grows (client_upto net depth e cfg).
Proof.
  revert e cfg. induction depth as [|depth IH]; intros e cfg; simpl.
  - apply respects_throw, log_grows_refl.
  - by apply client_call_log.
Qed.

Lemma request_stores e d : respects same_stores (request net e d).
Proof. apply client_upto_stores. Qed.

Lemma request_log e d : respects log_grows (request net e d).
Proof. apply client_upto_log. Qed.

(** *** The retry flag bounds the recursion *)

Lemma authorize_retry token cfg :
  Config._retry (authorize token cfg) = Config._retry cfg.
Proof. unfold authorize. by destruct (truthy token). Qed.

Lemma authorize_data token cfg :
  Config.data (authorize token cfg) = Config.data cfg.
Proof. unfold authorize. by destruct (truthy token). Qed.

(** the request interceptor finds the token that the response
    interceptor has just stored *)
Lemma authorize_replay cfg a :
  authorize (Some a)
    (Config.mk (Config.data cfg) (Some ("Bearer " +:+ a)) true)
  = replay_request cfg a.
Proof. unfold authorize, replay_request. simpl. by destruct (negb _). Qed.

(** A request that carries the flag is never replayed: [this.client] is
    not consulted. *)
Lemma client_call_flagged c1 c2 e cfg w :
  Config._retry cfg = true ->
  client_call net c1 e cfg w = client_call net c2 e cfg w.
Proof.
  intros Hflag.
  unfold client_call, request_interceptor, bind, getItem, ret, try_catch.
  destruct (transport net e _ w) as [[body|err] w1]; [done|].
  unfold response_rejected.
  by rewrite authorize_retry, Hflag, andb_false_r.
Qed.

(** Only flagged requests are handed back to [this.client]. *)
Lemma client_call_ext c1 c2 e cfg w :
  (forall e cfg w, Config._retry cfg = true -> c1 e cfg w = c2 e cfg w) ->
  client_call net c1 e cfg w = client_call net c2 e cfg w.
Proof.
  intros Hext.
  unfold client_call, request_interceptor, bind, getItem, ret, try_catch.
  destruct (transport net e _ w) as [[body|err] w1]; [done|].
  unfold response_rejected.
  destruct (_ && _); [|done].
  unfold bind, try_catch, getItem, ret.
  destruct (truthy (localStorage w1 !! "refreshToken")); [|done].
  destruct (ApiClient_refreshToken net _ w1) as [[body|err'] w2]; [|done].
  simpl. by apply Hext.
Qed.

(** Two levels are all that is ever used: deeper unfoldings of
    [this.client] give the same run. *)
Lemma client_upto_enough depth e cfg w :
  client_upto net (S (S depth)) e cfg w = client net e cfg w.
Proof.
  unfold client. simpl. apply client_call_ext.
  intros e' cfg' w' Hflag. by apply client_call_flagged.
Qed.

(** *** Where the outcome of a call comes from *)

Lemma transport_outcome e cfg w :
  match (transport net e cfg w).1 with
  | Ok body => net e (log w) cfg = Fulfilled body
  | Err err => exists r m, err = AxiosError r m
  end.
Proof.
  unfold transport. destruct (net e (log w) cfg); simpl; eauto.
Qed.

Lemma handle_other_errors_outcome {A} err w :
  (@handle_other_errors A err w).1 = Err err.
Proof.
  unfold handle_other_errors, bind, toast_error, emit, ret, throw.
  by repeat case_match.
Qed.

(** "Handle other errors" shows at most one toast and rejects *)
Lemma handle_other_errors_run {A} err w :
  exists toasts,
    @handle_other_errors A err w =
      (Err err,
       World.mk (localStorage w) (auth_storage w) (href w) (auth w)
                (userStore w) (authorization w) (log w ++ toasts))
    /\ http_calls toasts = [].
Proof.
  unfold handle_other_errors, bind, toast_error, emit, ret, throw.
  destruct (truthy (error_response_error err)); simpl.
  - by eexists [_].
  - destruct (truthy (error_message err)); simpl.
    + by eexists [_].
    + exists []. rewrite app_nil_r. by destruct w.
Qed.

(** the run of a flagged request *)
Lemma client_call_flagged_run c e cfg w :
  Config._retry cfg = true ->
  let sent := authorize (localStorage w !! "accessToken") cfg in
  client_call net c e cfg w =
    match net e (log w) sent with
    | Fulfilled body => (Ok body, with_event (EvHttp e sent) w)
    | Rejected r m =>
        handle_other_errors (AxiosError (Some r) m)
                            (with_event (EvHttp e sent) w)
    | Unreachable m =>
        handle_other_errors (AxiosError None m)
                            (with_event (EvHttp e sent) w)
    end.
Proof.
  intros Hflag sent.
  unfold client_call, request_interceptor, bind, getItem, ret, try_catch.
  unfold transport. fold sent.
  destruct (net e (log w) sent); [done| |];
    unfold response_rejected; subst sent;
    by rewrite (authorize_retry _ cfg), Hflag, andb_false_r.
Qed.

Lemma client_call_flagged_outcome c e cfg w :
  Config._retry cfg = true ->
  from_gateway net e (Config.data cfg) (client_call net c e cfg w).1.
Proof.
  intros Hflag.
  unfold client_call, request_interceptor, bind, getItem, ret, try_catch.
  pose proof (transport_outcome e
    (authorize (localStorage w !! "accessToken") cfg) w) as Ht.
  destruct (transport net e _ w) as [[body|err] w1]; simpl in *.
  - exists (log w), (authorize (localStorage w !! "accessToken") cfg).
    split; [done|apply authorize_data].
  - unfold response_rejected.
    rewrite authorize_retry, Hflag, andb_false_r.
    by rewrite handle_other_errors_outcome.
Qed.

Lemma client_outcome e cfg w :
  from_gateway net e (Config.data cfg) (client net e cfg w).1.
Proof.
  unfold client. simpl.
  unfold client_call at 1.
  unfold request_interceptor, bind, getItem, ret, try_catch.
  pose proof (transport_outcome e
    (authorize (localStorage w !! "accessToken") cfg) w) as Ht.
  destruct (transport net e _ w) as [[body|err] w1]; simpl in *.
  - exists (log w), (authorize (localStorage w !! "accessToken") cfg).
    split; [done|apply authorize_data].
  - unfold response_rejected.
    destruct (_ && _); [|by rewrite handle_other_errors_outcome].
    unfold bind, try_catch, getItem, ret.
    destruct (truthy (localStorage w1 !! "refreshToken"));
      [|by rewrite handle_other_errors_outcome].
    pose proof (transport_outcome PostRefresh
      (Config.mk (RefreshData (js_string (localStorage w1 !! "refreshToken")))
                 None false) w1) as Hr.
    unfold ApiClient_refreshToken.
    destruct (transport net PostRefresh _ w1) as [[rbody|rerr] w2];
      simpl in *; [|done].
    rewrite <- (authorize_data (localStorage w !! "accessToken") cfg).
    by apply (client_call_flagged_outcome _ e (Config.mk _ _ true)).
Qed.

(** The marker of the bounded unfolding never reaches a caller. *)
Lemma client_never_exhausted e cfg w :
  (client net e cfg w).1 <> Err StackExhausted.
Proof.
  pose proof (client_outcome e cfg w) as H.
  destruct (client net e cfg w).1; [done|].
  destruct H as (r & m & ->). done.
Qed.

Lemma request_outcome e d w : from_gateway net e d (request net e d w).1.
Proof. apply (client_outcome e (Config.mk d None false)). Qed.

End ClientFacts.

(** ** The 401 interceptor *)

Ltac other_errors H :=
  match type of H with
  | @handle_other_errors ?A ?err ?w0 = _ =>
      let toasts := fresh "toasts" in
      let Hrun := fresh "Hrun" in
      let Hnone := fresh "Hnone" in
      destruct (@handle_other_errors_run A err w0)
        as (toasts & Hrun & Hnone);
      rewrite Hrun in H; clear Hrun
  end.

Section Interceptor.

Variable net : forall e : Endpoint, list Event -> Config.t -> NetResult e.

(** C1, as the code has it.  An unflagged request is answered 401.
    - With a refresh token in [localStorage], exactly one refresh request
      is sent.  When the gateway fulfils it, the new token is stored and
      the original request is replayed exactly once, flagged; the outcome
      of the replay is the outcome of the call, whatever it is, and
      nothing else is sent or cleared: after a second 401 the credentials
      are still stored and the page stays where it is.  When the refresh
      is answered by an error or not at all, nothing is replayed, the
      three credential keys are removed, the page moves to [/login] and
      the refresh error is the outcome.
    - Without a refresh token nothing but the original request is sent
      and its 401 is the outcome.
    So every call sends at most one refresh and at most one replay, and
    unfolding [this.client] any deeper than the two levels of [client]
    changes nothing: the recursion through the replay stops there. *)
Theorem single_refresh_single_replay e config w response message :
  Config._retry config = false ->
  let original := authorize (localStorage w !! "accessToken") config in
  net e (log w) original = Rejected response message ->
  ErrorResponse.status response = 401%Z ->
  let result := (client net e config w).1 in
  let w' := (client net e config w).2 in
  let calls := http_calls (events_since w w') in
  let stored := localStorage w !! "refreshToken" in
  (forall depth,
     client_upto net (S (S depth)) e config w = client net e config w) /\
  if truthy stored then
    let refresh := refresh_request (js_string stored) in
    match net PostRefresh (log w ++ [EvHttp e original]) refresh with
    | Fulfilled body =>
        let accessToken := js_string (ApiResponse.accessToken body) in
        let replay := replay_request config accessToken in
        calls = [(e, original); (PostRefresh, refresh); (e, replay)] /\
        localStorage w' = <["accessToken" := accessToken]> (localStorage w)
        /\ href w' = href w /\
        match net e (log w ++ [EvHttp e original; EvHttp PostRefresh refresh])
                  replay with
        | Fulfilled body' => result = Ok body'
        | Rejected response' message' =>
            result = Err (AxiosError (Some response') message')
        | Unreachable message' => result = Err (AxiosError None message')
        end
    | Rejected response' message' =>
        calls = [(e, original); (PostRefresh, refresh)] /\
        localStorage w' = clear_credentials (localStorage w) /\
        href w' = "/login" /\
        result = Err (AxiosError (Some response') message')
    | Unreachable message' =>
        calls = [(e, original); (PostRefresh, refresh)] /\
        localStorage w' = clear_credentials (localStorage w) /\
        href w' = "/login" /\
        result = Err (AxiosError None message')
    end
  else
    calls = [(e, original)] /\
    localStorage w' = localStorage w /\
    href w' = href w /\
    result = Err (AxiosError (Some response) message).
Proof.
  intros Hflag original Hfirst Hstatus.
  split; [intros depth; apply client_upto_enough|].
  destruct (client net e config w) as [result w'] eqn:Hrun. simpl.
  unfold client in Hrun. simpl in Hrun.
  unfold client_call at 1 in Hrun.
  unfold request_interceptor, bind, getItem, ret, try_catch in Hrun.
  unfold transport at 1 in Hrun. fold original in Hrun.
  rewrite Hfirst in Hrun.
  unfold response_rejected in Hrun. simpl in Hrun.
  unfold original at 1 in Hrun.
  rewrite authorize_retry, Hflag, Hstatus in Hrun. simpl in Hrun.
  unfold bind, try_catch, getItem, ret in Hrun. simpl in Hrun.
  destruct (truthy (localStorage w !! "refreshToken")) eqn:Hstored.
  - unfold ApiClient_refreshToken, transport at 1 in Hrun. simpl in Hrun.
    unfold refresh_request.
    destruct (net PostRefresh _ _) as [body|r' m'|m'] eqn:Hrefresh;
      simpl in Hrun.
    + rewrite client_call_flagged_run in Hrun by done. simpl in Hrun.
      rewrite lookup_insert_eq in Hrun.
      assert (Hd : Config.data original = Config.data config)
        by apply authorize_data.
      rewrite !Hd, !authorize_replay in Hrun.
      rewrite <- app_assoc in Hrun. simpl in Hrun.
      destruct (net e _ (replay_request _ _)) as [body'|r' m'|m'].
      * injection Hrun as <- <-. simpl.
        rewrite (events_since_app w _ [_; _; _])
          by (simpl; by rewrite <- !app_assoc).
        done.
      * other_errors Hrun. injection Hrun as <- <-. simpl.
        rewrite (events_since_app w _ ([_; _; _] ++ toasts))
          by (simpl; by rewrite <- !app_assoc).
        by rewrite http_calls_app, Hnone.
      * other_errors Hrun. injection Hrun as <- <-. simpl.
        rewrite (events_since_app w _ ([_; _; _] ++ toasts))
          by (simpl; by rewrite <- !app_assoc).
        by rewrite http_calls_app, Hnone.
    + injection Hrun as <- <-. simpl.
      rewrite (events_since_app w _ [_; _; _])
        by (simpl; by rewrite <- !app_assoc).
      done.
    + injection Hrun as <- <-. simpl.
      rewrite (events_since_app w _ [_; _; _])
        by (simpl; by rewrite <- !app_assoc).
      done.
  - other_errors Hrun. injection Hrun as <- <-. simpl.
    rewrite (events_since_app w _ ([_] ++ toasts))
      by (simpl; by rewrite <- !app_assoc).
    by rewrite http_calls_app, Hnone.
Qed.

End Interceptor.

(** The theorem at work: the token has expired, [GET /users] is answered
    401, the refresh succeeds and the replay is answered 401 again. *)
Lemma single_refresh_single_replay_expired :
  http_calls
    (events_since signed_in (client expired GetUsers plain_request signed_in).2)
  = [(GetUsers, Config.mk NoData (Some "Bearer stale") false);
     (PostRefresh, refresh_request "r0");
     (GetUsers, Config.mk NoData (Some "Bearer fresh") true)].
Proof.
  pose proof (single_refresh_single_replay expired GetUsers plain_request
                signed_in (ErrorResponse.mk 401 None)
                "Request failed with status code 401"
                eq_refl eq_refl eq_refl) as H.
  exact (proj1 (proj2 H)).
Defined.

(** C1 as stated fails twice.  After the second 401 both tokens are still
    in [localStorage] (the new access token and the old refresh token) and
    the page has not moved; and a 401 that finds no refresh token is
    followed by no refresh and no replay at all. *)
Lemma second_401_keeps_credentials :
  (let run := client expired GetUsers plain_request signed_in in
   run.1 = Err (AxiosError (Some (ErrorResponse.mk 401 None))
                           "Request failed with status code 401") /\
   localStorage run.2 !! "accessToken" = Some "fresh" /\
   localStorage run.2 !! "refreshToken" = Some "r0" /\
   href run.2 = "/users") /\
  (let run := client expired GetUsers plain_request initial_world in
   http_calls (events_since initial_world run.2)
   = [(GetUsers, plain_request)]).
Proof. vm_compute. repeat split. Qed.

(** ** The session store *)

Section Session.

Variable net : forall e : Endpoint, list Event -> Config.t -> NetResult e.

Lemma invariant_loading b s :
  session_invariant s -> session_invariant (auth_loading b s).
Proof. done. Qed.

Lemma invariant_anonymous m b :
  session_invariant (AuthState.mk None None m false b).
Proof. split; [done|]. by intros [[? [=]] _]. Qed.

Lemma logout_auth w :
  auth (logout net w).2
  = AuthState.mk None None (RefreshValue None) false false.
Proof.
  unfold logout, bind, try_catch.
  by destruct (api_logout net w) as [[[]|err] w1].
Qed.

(** C2.  The invariant holds in the initial state, and every action of
    the session store, whether it ends well or throws, takes a state
    that has it to a state that has it, as long as the gateway's answers
    to login and refresh are well formed. *)
Theorem session_invariant_preserved a w :
  well_formed_login net -> well_formed_refresh net ->
  session_invariant (auth w) ->
  session_invariant initial_auth /\
  session_invariant (auth (run_auth net a w).2).
Proof.
  intros Hlogin Hrefresh Hinv.
  split; [apply invariant_anonymous|].
  assert (Hbody : session_invariant (auth (refreshToken net w).2)).
  { unfold refreshToken, bind, get_auth. simpl.
    destruct (member_truthy (AuthState.refreshToken (auth w))); simpl;
      [|done].
    unfold try_catch, bind.
    match goal with |- context [request net PostRefresh ?d ?w1] =>
      pose proof (request_outcome net PostRefresh d w1) as Hout;
      pose proof (request_stores net PostRefresh d w1) as (Ha & _);
      destruct (request net PostRefresh d w1) as [[body|err] w2]
    end; simpl in *.
    + destruct Hout as (hist & cfg & Hnet & _).
      destruct (@ApiResponse.data RefreshResponse.t body) as [d|] eqn:Hd;
        simpl.
      * destruct (Hrefresh _ _ _ _ Hnet Hd) as [Htok Huser].
        unfold session_invariant; simpl; tauto.
      * apply invariant_anonymous.
    + apply invariant_anonymous. }
  destruct a as [c| | | | |b]; cbn [run_auth].
  - unfold login, bind, try_catch. simpl.
    unfold api_login.
    match goal with |- context [request net PostLogin ?d ?w1] =>
      pose proof (request_outcome net PostLogin d w1) as Hout;
      pose proof (request_stores net PostLogin d w1) as (Ha & _);
      destruct (request net PostLogin d w1) as [[body|err] w2]
    end; simpl in *.
    + destruct Hout as (hist & cfg & Hnet & _).
      destruct (@ApiResponse.data LoginResponse.t body) as [d|] eqn:Hd;
        simpl.
      * destruct (Hlogin _ _ _ _ Hnet Hd) as [Htok Huser].
        unfold session_invariant; simpl; tauto.
      * rewrite Ha. by apply invariant_loading.
    + rewrite Ha. by apply invariant_loading.
  - rewrite logout_auth. apply invariant_anonymous.
  - unfold call_refreshToken, bind, get_auth. simpl.
    destruct (AuthState.refreshToken (auth w)); [exact Hbody|done].
  - exact Hbody.
  - by apply invariant_loading.
  - by apply invariant_loading.
Qed.

(** C3.  [logout] never throws; it ends anonymous with every field of
    the session null, the three credential keys gone from
    [localStorage] and the persisted session emptied, whatever the
    gateway did with the logout request. *)
Theorem logout_always_clears w :
  let result := (logout net w).1 in
  let w' := (logout net w).2 in
  result = Ok tt /\
  auth w' = AuthState.mk None None (RefreshValue None) false false /\
  localStorage w' !! "accessToken" = None /\
  localStorage w' !! "refreshToken" = None /\
  localStorage w' !! "user" = None /\
  auth_storage w' = Some (Persisted.mk None None None false).
Proof.
  unfold logout, bind, try_catch.
  destruct (api_logout net w) as [[[]|err] w1]; simpl;
    repeat split; by simplify_map_eq.
Qed.

(** However [login] comes to throw, the credentials in the store are
    those it started with, and the loading flag is down. *)
Lemma login_rejected_frame c w err :
  (login net c w).1 = Err err ->
  same_credentials (auth w) (auth (login net c w).2) /\
  AuthState.isLoading (auth (login net c w).2) = false.
Proof.
  unfold login, bind, try_catch. simpl. unfold api_login.
  match goal with |- context [request net PostLogin ?d ?w1] =>
    pose proof (request_stores net PostLogin d w1) as (Ha & _);
    destruct (request net PostLogin d w1) as [[body|err'] w2]
  end; simpl in *.
  - destruct (@ApiResponse.data LoginResponse.t body) as [d|]; simpl.
    + done.
    + intros _. rewrite Ha. by repeat split.
  - intros _. rewrite Ha. by repeat split.
Qed.

(** C8.  When the login request fails, [login] throws that very error;
    user, token, refresh token and the authenticated flag are those from
    before the call, and [isLoading] is false. *)
Theorem login_failure_keeps_credentials c w err :
  (api_login net (LoginRequest.email c) (LoginRequest.password c)
             (set_auth (auth_loading true) w).2).1 = Err err ->
  (login net c w).1 = Err err /\
  same_credentials (auth w) (auth (login net c w).2) /\
  AuthState.isLoading (auth (login net c w).2) = false.
Proof.
  intros Hfail.
  assert (Hres : (login net c w).1 = Err err).
  { unfold login, bind, try_catch. simpl in *.
    destruct (api_login net _ _ _) as [[body|err'] w1]; [done|].
    simpl in *. by injection Hfail as ->. }
  split; [done|]. by apply login_rejected_frame with err.
Qed.

(** Once a [set] has written over the member, the call through the
    store fails before the function is entered: nothing is sent and
    nothing changes. *)
Lemma call_refreshToken_overwritten w token :
  AuthState.refreshToken (auth w) = RefreshValue token ->
  call_refreshToken net w
  = (Err (TypeError "refreshToken is not a function"), w).
Proof.
  intros Hmember. unfold call_refreshToken, bind, get_auth. simpl.
  by rewrite Hmember.
Qed.

(** While the member holds the function, the call through the store is
    the function. *)
Lemma call_refreshToken_action w :
  AuthState.refreshToken (auth w) = RefreshAction ->
  call_refreshToken net w = refreshToken net w.
Proof.
  intros Hmember. unfold call_refreshToken, bind, get_auth. simpl.
  by rewrite Hmember.
Qed.

(** The function on a refresh that gets no response: the error is
    rethrown and the session is emptied in memory, but [localStorage] is
    exactly as it was. *)
Lemma refreshToken_unreachable w message :
  member_truthy (AuthState.refreshToken (auth w)) = true ->
  let sent :=
    authorize (localStorage w !! "accessToken")
      (Config.mk (refresh_data (AuthState.refreshToken (auth w)))
                 None false) in
  net PostRefresh (log w) sent = Unreachable message ->
  let run := refreshToken net w in
  run.1 = Err (AxiosError None message) /\
  auth run.2
    = AuthState.mk None None (RefreshValue None) false
                   (AuthState.isLoading (auth w)) /\
  localStorage run.2 = localStorage w.
Proof.
  intros Htoken sent Hnet.
  destruct (refreshToken net w) as [result w'] eqn:Hrun. simpl.
  unfold refreshToken, bind, get_auth in Hrun. rewrite Htoken in Hrun.
  simpl in Hrun.
  unfold try_catch, bind, request, client in Hrun. simpl in Hrun.
  unfold client_call at 1 in Hrun.
  unfold request_interceptor, bind, getItem, ret, try_catch in Hrun.
  unfold transport at 1 in Hrun. fold sent in Hrun. rewrite Hnet in Hrun.
  unfold response_rejected in Hrun. simpl in Hrun.
  destruct (handle_other_errors_run (A:=Body PostRefresh)
              (AxiosError None message)
              (with_event (EvHttp PostRefresh sent) w))
    as (toasts & Hother & _).
  rewrite Hother in Hrun. unfold throw in Hrun. simpl in Hrun.
  by injection Hrun as <- <-.
Qed.

End Session.

Lemma gateway_login_well_formed refetch : well_formed_login (gateway refetch).
Proof.
  intros hist cfg body d Hnet Hd. simpl in Hnet.
  injection Hnet as <-. simpl in Hd. injection Hd as <-. simpl. eauto.
Qed.

Lemma gateway_refresh_well_formed refetch :
  well_formed_refresh (gateway refetch).
Proof.
  intros hist cfg body d Hnet Hd. simpl in Hnet.
  injection Hnet as <-. simpl in Hd. injection Hd as <-. simpl. eauto.
Qed.

(** C2 at work: a login against the gateway, from the initial world. *)
Lemma session_invariant_after_login :
  session_invariant initial_auth /\
  session_invariant
    (auth (run_auth (gateway true) (Login alice_login) initial_world).2).
Proof.
  apply (session_invariant_preserved (gateway true) (Login alice_login)
           initial_world).
  - apply gateway_login_well_formed.
  - apply gateway_refresh_well_formed.
  - apply invariant_anonymous.
Defined.

(** C8 at work: a login without network, from a signed-in world. *)
Lemma login_failure_offline :
  (login offline alice_login signed_in).1
    = Err (AxiosError None "Network Error") /\
  same_credentials (auth signed_in)
                   (auth (login offline alice_login signed_in).2) /\
  AuthState.isLoading (auth (login offline alice_login signed_in).2) = false.
Proof.
  apply (login_failure_keeps_credentials offline alice_login signed_in).
  vm_compute. reflexivity.
Defined.

(** C4, at a failing input.  Alice logs in, then the network goes down
    and [refreshToken()] is called on the store.  [login] has written the
    refresh token under the key that also named the action, so the call
    throws a TypeError before anything is sent: nothing is cleared, the
    session stays authenticated with both tokens, in memory and in
    [localStorage], and the error that reaches the caller is not the one
    of the network.
    The function is still there on a store that has seen no [login] and
    no [logout].  There a refresh that fails at the network does rethrow
    the error and empty the session in memory and in the persisted copy;
    but the access token that the refresh before it had put under its own
    key of [localStorage] is still there, where [logout] and the
    interceptor's own failure path remove it. *)
Theorem refreshToken_failure_leaves_tokens :
  (let w := (login (gateway true) alice_login initial_world).2 in
   let run := call_refreshToken offline w in
   AuthState.refreshToken (auth w) = RefreshValue (Some "r1") /\
   (exists msg, run.1 = Err (TypeError msg)) /\
   http_calls (events_since w run.2) = [] /\
   auth run.2
     = AuthState.mk (Some alice_info) (Some "t1") (RefreshValue (Some "r1"))
                    true false /\
   auth_storage run.2
     = Some (Persisted.mk (Some alice_info) (Some "t1") (Some "r1") true) /\
   localStorage run.2 !! "accessToken" = Some "t1" /\
   localStorage run.2 !! "refreshToken" = Some "r1") /\
  (let w := (call_refreshToken (gateway true) initial_world).2 in
   let run := call_refreshToken offline w in
   AuthState.refreshToken (auth w) = RefreshAction /\
   localStorage w !! "accessToken" = Some "t2" /\
   run.1 = Err (AxiosError None "Network Error") /\
   auth run.2 = AuthState.mk None None (RefreshValue None) false false /\
   auth_storage run.2 = Some (Persisted.mk None None None false) /\
   localStorage run.2 !! "accessToken" = Some "t2").
Proof. vm_compute. repeat split. eauto. Qed.

(** ** The user store *)

Lemma array_map_lookup {A B} (f : A -> Outcome B) l l' :
  array_map f l = Ok l' ->
  length l' = length l /\
  forall i x, l !! i = Some x -> exists y, f x = Ok y /\ l' !! i = Some y.
Proof.
  revert l'. induction l as [|a l IH]; intros l' H; simpl in H.
  - injection H as <-. split; [done|]. intros i x Hi. done.
  - destruct (f a) as [y|e] eqn:Hfa; [|done].
    destruct (array_map f l) as [l0|e]; [|done].
    injection H as <-. destruct (IH l0 eq_refl) as [Hlen Hl].
    split; [simpl; by rewrite Hlen|].
    intros [|i] x Hi; simpl in *.
    + injection Hi as <-. eauto.
    + by apply Hl.
Qed.

Section Users.

Variable net : forall e : Endpoint, list Event -> Config.t -> NetResult e.

(** C5, as the code has it.  When [createUser] ends well, the gateway
    has fulfilled a [POST /users] for this data, and the collection is
    the former one followed by the [data] of that answer.  If [data] is
    a record, the records with its id are those there were, followed by
    the new one: exactly one when the id was not in the collection. *)
Theorem createUser_appends userData w :
  (createUser net userData w).1 = Ok tt ->
  exists response hist cfg,
    net PostUser hist cfg = Fulfilled response /\
    Config.data cfg = CreateUserData userData /\
    let before := UserState.users (userStore w) in
    let after := UserState.users (userStore (createUser net userData w).2) in
    after = before ++ [ApiResponse.data response] /\
    forall newUser,
      ApiResponse.data response = Some newUser ->
      let X := User.userId newUser in
      records_with_id X after = records_with_id X before ++ [newUser] /\
      (records_with_id X before = [] ->
       records_with_id X after = [newUser]).
Proof.
  unfold createUser, bind, try_catch. simpl. unfold api_createUser.
  match goal with |- context [request net PostUser ?d ?w1] =>
    pose proof (request_outcome net PostUser d w1) as Hout;
    pose proof (request_stores net PostUser d w1) as (_ & Hu & _);
    destruct (request net PostUser d w1) as [[body|err'] w2]
  end; simpl in *; [|done].
  intros _. destruct Hout as (hist & cfg & Hnet & Hdata).
  exists body, hist, cfg. split; [done|]. split; [done|].
  rewrite Hu. simpl. split; [done|].
  intros newUser Hnew.
  assert (Hall : records_with_id (User.userId newUser)
                   (UserState.users (userStore w) ++ [Some newUser])
                 = records_with_id (User.userId newUser)
                     (UserState.users (userStore w)) ++ [newUser]).
  { unfold records_with_id. rewrite omap_app, filter_app. simpl.
    by rewrite filter_cons_True by done. }
  replace (@ApiResponse.data User.t body) with (Some newUser).
  split; [done|]. intros Hfresh. by rewrite Hall, Hfresh.
Qed.

(** C6.  When [updateUser] ends well, the gateway has fulfilled a
    [PUT /users/Y] for this patch.  The collection has the length it
    had; at every position a record with id [Y] has given way to the
    [data] of the answer and any other record is the one that was there;
    and the current record is that [data] if it had id [Y], and is
    untouched if not. *)
Theorem updateUser_replaces_in_place userId userData w :
  (updateUser net userId userData w).1 = Ok tt ->
  exists response hist cfg,
    net (PutUser userId) hist cfg = Fulfilled response /\
    Config.data cfg = UpdateUserData userData /\
    let updatedUser := ApiResponse.data response in
    let before := userStore w in
    let after := userStore (updateUser net userId userData w).2 in
    length (UserState.users after) = length (UserState.users before) /\
    (forall i record,
       UserState.users before !! i = Some record ->
       exists user,
         record = Some user /\
         (User.userId user = userId ->
          UserState.users after !! i = Some updatedUser) /\
         (User.userId user <> userId ->
          UserState.users after !! i = Some (Some user))) /\
    (forall user,
       UserState.currentUser before = Some user ->
       User.userId user = userId ->
       UserState.currentUser after = updatedUser) /\
    ((forall user,
        UserState.currentUser before = Some user ->
        User.userId user <> userId) ->
     UserState.currentUser after = UserState.currentUser before).
Proof.
  unfold updateUser, bind, try_catch. simpl. unfold api_updateUser.
  match goal with |- context [request net (PutUser userId) ?d ?w1] =>
    pose proof (request_outcome net (PutUser userId) d w1) as Hout;
    pose proof (request_stores net (PutUser userId) d w1) as (_ & Hu & _);
    destruct (request net (PutUser userId) d w1) as [[body|err'] w2]
  end; simpl in *; [|done].
  destruct Hout as (hist & cfg & Hnet & Hdata).
  unfold lift.
  destruct (array_map _ (UserState.users (userStore w2))) as [users|e]
    eqn:Hmap; simpl; [|done].
  intros _. exists body, hist, cfg. split; [done|]. split; [done|].
  apply array_map_lookup in Hmap as [Hlen Hmap].
  rewrite Hu in *. simpl in *.
  split; [done|]. split; [|split].
  - intros i record Hi. destruct (Hmap i record Hi) as (y & Hy & Hi').
    destruct record as [user|]; [|done]. simpl in Hy.
    exists user. split; [done|]. injection Hy as <-.
    destruct (String.eqb_spec (User.userId user) userId); split; done.
  - intros user -> Hid. simpl. by rewrite (proj2 (String.eqb_eq _ _) Hid).
  - intros Hother. destruct (UserState.currentUser (userStore w))
      as [user|]; simpl; [|done].
    specialize (Hother user eq_refl).
    by rewrite (proj2 (String.eqb_neq _ _) Hother).
Qed.

End Users.

(** C5 at work: Alice is created next to Bob. *)
Lemma createUser_appends_alice :
  UserState.users
    (userStore (createUser (gateway true) alice_request
                           (with_users [Some bob] None)).2)
  = [Some bob; Some alice].
Proof.
  destruct (createUser_appends (gateway true) alice_request
              (with_users [Some bob] None))
    as (response & hist & cfg & Hnet & _ & Hafter & _).
  - vm_compute. reflexivity.
  - simpl in Hnet. injection Hnet as <-. exact Hafter.
Defined.

(** C5 as stated fails on a collection that already holds the id: the
    gateway returns the record with id [u1], the collection held one such
    record, and now it holds two. *)
Lemma createUser_duplicates_id :
  let run := createUser (gateway true) alice_request
                        (with_users [Some alice; Some bob] None) in
  run.1 = Ok tt /\
  UserState.users (userStore run.2) = [Some alice; Some bob; Some alice] /\
  records_with_id "u1" (UserState.users (userStore run.2)) = [alice; alice].
Proof. vm_compute. repeat split. Qed.

(** C6 at work: Alice, first of two records and the current one, is
    renamed. *)
Lemma updateUser_renames_alice :
  let after :=
    userStore (updateUser (gateway true) "u1" rename_request
                 (with_users [Some alice; Some bob] (Some alice))).2 in
  UserState.users after !! 0%nat = Some (Some alice_renamed) /\
  UserState.users after !! 1%nat = Some (Some bob) /\
  UserState.currentUser after = Some alice_renamed.
Proof.
  destruct (updateUser_replaces_in_place (gateway true) "u1" rename_request
              (with_users [Some alice; Some bob] (Some alice)))
    as (response & hist & cfg & Hnet & _ & _ & Hrecords & Hcurrent & _).
  - vm_compute. reflexivity.
  - simpl in Hnet. injection Hnet as <-.
    destruct (Hrecords 0%nat (Some alice) eq_refl) as (u0 & Hu0 & Hsame & _).
    destruct (Hrecords 1%nat (Some bob) eq_refl) as (u1 & Hu1 & _ & Hother).
    injection Hu0 as <-. injection Hu1 as <-.
    split; [exact (Hsame eq_refl)|].
    split; [apply Hother; discriminate|].
    exact (Hcurrent alice eq_refl eq_refl).
Defined.

(** ** The authorization store *)

Section Authorization.

Variable net : forall e : Endpoint, list Event -> Config.t -> NetResult e.

(** an action that starts with a [set]: the event of that [set] heads
    everything the action logs *)
Lemma set_user_first f (rest : M unit) w :
  respects log_grows rest ->
  exists evs,
    events_since w ((set_user f;; rest) w).2 =
      EvSet (UserSnap (f (userStore w))) :: evs.
Proof.
  intros Hrest.
  change ((set_user f;; rest) w) with (rest (set_user f w).2).
  destruct (Hrest (set_user f w).2) as [evs Hevs].
  exists evs. apply events_since_app. rewrite Hevs. simpl.
  by rewrite <- app_assoc.
Qed.

Lemma set_authorization_first f (rest : M unit) w :
  respects log_grows rest ->
  exists evs,
    events_since w ((set_authorization f;; rest) w).2 =
      EvSet (AuthorizationSnap (f (authorization w))) :: evs.
Proof.
  intros Hrest.
  change ((set_authorization f;; rest) w)
    with (rest (set_authorization f w).2).
  destruct (Hrest (set_authorization f w).2) as [evs Hevs].
  exists evs. apply events_since_app. rewrite Hevs. simpl.
  by rewrite <- app_assoc.
Qed.

(** the refetch of a cache entry inserts into the cache and touches
    nothing else; when the request fails it touches nothing at all *)
Lemma fetchUserRoles_run userId w :
  let w' := (fetchUserRoles net userId w).2 in
  (fetchUserRoles net userId w).1 = Ok tt /\
  auth w' = auth w /\ userStore w' = userStore w /\
  AuthorizationState.isLoading (authorization w')
    = AuthorizationState.isLoading (authorization w) /\
  AuthorizationState.error (authorization w')
    = AuthorizationState.error (authorization w) /\
  (forall err, (api_getUserRoles net userId w).1 = Err err ->
               authorization w' = authorization w).
Proof.
  unfold fetchUserRoles, try_catch, bind, api_getUserRoles.
  pose proof (request_stores net (GetUserRoles userId) NoData w)
    as (Ha & Hu & Hz & _).
  destruct (request net (GetUserRoles userId) NoData w) as [[body|err] w1];
    simpl in *; rewrite ?Hz, ?Ha, ?Hu; by repeat split.
Qed.

Lemma fetchUserPermissions_run userId w :
  let w' := (fetchUserPermissions net userId w).2 in
  (fetchUserPermissions net userId w).1 = Ok tt /\
  auth w' = auth w /\ userStore w' = userStore w /\
  AuthorizationState.isLoading (authorization w')
    = AuthorizationState.isLoading (authorization w) /\
  AuthorizationState.error (authorization w')
    = AuthorizationState.error (authorization w) /\
  (forall err, (api_getUserPermissions net userId w).1 = Err err ->
               authorization w' = authorization w).
Proof.
  unfold fetchUserPermissions, try_catch, bind, api_getUserPermissions.
  pose proof (request_stores net (GetUserPermissions userId) NoData w)
    as (Ha & Hu & Hz & _).
  destruct (request net (GetUserPermissions userId) NoData w)
    as [[body|err] w1];
    simpl in *; rewrite ?Hz, ?Ha, ?Hu; by repeat split.
Qed.

Lemma same_flags_refl w : same_flags w w.
Proof. by split. Qed.

Lemma same_flags_trans w1 w2 w3 :
  same_flags w1 w2 -> same_flags w2 w3 -> same_flags w1 w3.
Proof. intros [? ?] [? ?]. split; congruence. Qed.

Lemma stores_flags {A} (m : M A) :
  respects same_stores m -> respects same_flags m.
Proof.
  intros H w. destruct (H w) as (_ & _ & Hz & _).
  unfold same_flags. by rewrite Hz.
Qed.

Lemma fetchUserRoles_flags userId :
  respects same_flags (fetchUserRoles net userId).
Proof.
  intros w.
  by destruct (fetchUserRoles_run userId w) as (_ & _ & _ & ? & ? & _).
Qed.

Lemma fetchUserPermissions_flags userId :
  respects same_flags (fetchUserPermissions net userId).
Proof.
  intros w.
  by destruct (fetchUserPermissions_run userId w) as (_ & _ & _ & ? & ? & _).
Qed.

Lemma fetchUserRoles_log userId :
  respects log_grows (fetchUserRoles net userId).
Proof.
  unfold fetchUserRoles, api_getUserRoles, console.
  peel log_grows_refl log_grows_trans
    ltac:(first [ grows_leaf | apply request_log ]).
Qed.

(** C9, as the code has it.  Each of the nine actions that fetch or
    change a collection logs, before anything else and so before its
    request leaves, a [set] whose snapshot has [isLoading] true and
    [error] null.  The four actions on the per-user caches never write
    these two fields: they end with the values they started with. *)
Theorem loading_flag_discipline :
  (forall a w,
     exists s evs,
       events_since w (run_loading net a w).2 = EvSet s :: evs /\
       begins_loading s) /\
  (forall a w, same_flags w (run_cache net a w).2).
Proof.
  split.
  - intros a w. destruct a; cbn [run_loading].
    all: match goal with
         | |- context [fetchUsers] => unfold fetchUsers
         | |- context [fetchUserById] => unfold fetchUserById
         | |- context [createUser] => unfold createUser
         | |- context [updateUser] => unfold updateUser
         | |- context [deleteUser] => unfold deleteUser
         | |- context [fetchRoles] => unfold fetchRoles
         | |- context [fetchPermissions] => unfold fetchPermissions
         | |- context [createRole] => unfold createRole
         | |- context [createPermission] => unfold createPermission
         end.
    all: match goal with
         | |- context [(set_user ?f;; ?rest) ?w0] =>
             destruct (set_user_first f rest w0) as [evs Hevs];
             [|eexists _, evs; split; [exact Hevs|done]]
         | |- context [(set_authorization ?f;; ?rest) ?w0] =>
             destruct (set_authorization_first f rest w0) as [evs Hevs];
             [|eexists _, evs; split; [exact Hevs|done]]
         end.
    all: unfold api_getUsers, api_getUserById, api_createUser,
           api_updateUser, api_deleteUser, api_getRoles, api_getPermissions,
           api_createRole, api_createPermission, toast_success, toast_error;
         peel log_grows_refl log_grows_trans
           ltac:(first [ grows_leaf | apply request_log ]).
  - intros a w. revert w. fold (respects same_flags (run_cache net a)).
    destruct a; cbn [run_cache].
    + unfold assignRole, api_assignRole, toast_success, toast_error.
      peel same_flags_refl same_flags_trans
        ltac:(first [ apply fetchUserRoles_flags
                    | apply stores_flags;
                      first [ apply request_stores | stores_leaf ] ]).
    + unfold revokeRole, api_revokeRole, toast_success, toast_error.
      peel same_flags_refl same_flags_trans
        ltac:(first [ apply fetchUserRoles_flags
                    | apply stores_flags;
                      first [ apply request_stores | stores_leaf ] ]).
    + apply fetchUserRoles_flags.
    + apply fetchUserPermissions_flags.
Qed.

(** C10.  A refetch of a user's roles or permissions whose request
    fails ends well and leaves the whole authorization store, error
    field and both caches included, as it was.  So when the gateway
    accepts an assignment or a revocation and then fails the refetch,
    the action still ends well, its last word is the success toast, and
    the authorization store is unchanged. *)
Theorem cache_refetch_failure_is_silent userId roleId w :
  (failed (api_getUserRoles net userId w).1 ->
   (fetchUserRoles net userId w).1 = Ok tt /\
   authorization (fetchUserRoles net userId w).2 = authorization w) /\
  (failed (api_getUserPermissions net userId w).1 ->
   (fetchUserPermissions net userId w).1 = Ok tt /\
   authorization (fetchUserPermissions net userId w).2 = authorization w)
  /\
  (let sent := api_assignRole net userId roleId w in
   let w' := (assignRole net userId roleId w).2 in
   succeeded sent.1 ->
   failed (api_getUserRoles net userId sent.2).1 ->
   (assignRole net userId roleId w).1 = Ok tt /\
   authorization w' = authorization w /\
   last (events_since w w')
     = Some (EvToastSuccess "Role assigned successfully!")) /\
  (let sent := api_revokeRole net userId roleId w in
   let w' := (revokeRole net userId roleId w).2 in
   succeeded sent.1 ->
   failed (api_getUserRoles net userId sent.2).1 ->
   (revokeRole net userId roleId w).1 = Ok tt /\
   authorization w' = authorization w /\
   last (events_since w w')
     = Some (EvToastSuccess "Role revoked successfully!")).
Proof.
  assert (Hrefetch : forall w0,
    failed (api_getUserRoles net userId w0).1 ->
    authorization (fetchUserRoles net userId w0).2 = authorization w0).
  { intros w0 Hf.
    destruct (fetchUserRoles_run userId w0) as (_ & _ & _ & _ & _ & H).
    destruct (api_getUserRoles net userId w0).1 as [|err] eqn:E; [done|].
    by apply (H err). }
  split; [|split; [|split]].
  - intros Hf. split; [apply fetchUserRoles_run|by apply Hrefetch].
  - intros Hf. split; [apply fetchUserPermissions_run|].
    destruct (fetchUserPermissions_run userId w) as (_ & _ & _ & _ & _ & H).
    destruct (api_getUserPermissions net userId w).1 as [|err] eqn:E;
      [done|].
    by apply (H err).
  - simpl. unfold assignRole, try_catch, bind, api_assignRole.
    pose proof (request_stores net PostAssignRole
                  (AssignRoleData userId roleId) w) as (_ & _ & Hz & _).
    pose proof (request_log net PostAssignRole
                  (AssignRoleData userId roleId) w) as [evs1 Hlog1].
    destruct (request net PostAssignRole _ w) as [[body|err] w1];
      simpl in *; [|done].
    intros _ Hf.
    pose proof (Hrefetch w1 Hf) as Hsame.
    pose proof (fetchUserRoles_log userId w1) as [evs2 Hlog2].
    destruct (fetchUserRoles_run userId w1) as (Hok & _).
    destruct (fetchUserRoles net userId w1) as [[[]|err] w2];
      simpl in *; [|done].
    split; [done|]. split; [congruence|].
    rewrite (events_since_app w _ ((evs1 ++ evs2) ++ [EvToastSuccess _]))
      by (simpl; by rewrite Hlog2, Hlog1, <- !app_assoc).
    apply last_snoc.
  - simpl. unfold revokeRole, try_catch, bind, api_revokeRole.
    pose proof (request_stores net (DeleteUserRole userId roleId)
                  NoData w) as (_ & _ & Hz & _).
    pose proof (request_log net (DeleteUserRole userId roleId)
                  NoData w) as [evs1 Hlog1].
    destruct (request net (DeleteUserRole userId roleId) _ w)
      as [[body|err] w1]; simpl in *; [|done].
    intros _ Hf.
    pose proof (Hrefetch w1 Hf) as Hsame.
    pose proof (fetchUserRoles_log userId w1) as [evs2 Hlog2].
    destruct (fetchUserRoles_run userId w1) as (Hok & _).
    destruct (fetchUserRoles net userId w1) as [[[]|err] w2];
      simpl in *; [|done].
    split; [done|]. split; [congruence|].
    rewrite (events_since_app w _ ((evs1 ++ evs2) ++ [EvToastSuccess _]))
      by (simpl; by rewrite Hlog2, Hlog1, <- !app_assoc).
    apply last_snoc.
Qed.

End Authorization.

(** C9 as stated fails on the cache actions.  Against a gateway that
    serves everything, [assignRole] first sends its two requests; its only
    state change comes after both are answered and has [isLoading] false. *)
Lemma assignRole_never_loads :
  let run := assignRole (gateway true) "u1" "admin" initial_world in
  events_since initial_world run.2
  = [EvHttp PostAssignRole
       (Config.mk (AssignRoleData "u1" "admin") None false);
     EvHttp (GetUserRoles "u1") plain_request;
     EvSet (AuthorizationSnap
              (AuthorizationState.mk (Some []) (Some [])
                                     (<["u1" := Some []]> ∅) ∅ false None));
     EvToastSuccess "Role assigned successfully!"].
Proof. vm_compute. reflexivity. Qed.

(** C10 at work: the gateway accepts the assignment and answers 500 to
    the refetch. *)
Lemma assignRole_stale_cache :
  let run := assignRole (gateway false) "u1" "admin" initial_world in
  run.1 = Ok tt /\
  authorization run.2 = authorization initial_world /\
  last (events_since initial_world run.2)
    = Some (EvToastSuccess "Role assigned successfully!").
Proof.
  apply (cache_refetch_failure_is_silent (gateway false) "u1" "admin"
           initial_world); vm_compute; exact I.
Defined.

(** * Beyond the claims: the HTTP client *)

Section ClientRuns.

Variable net : forall e : Endpoint, list Event -> Config.t -> NetResult e.

Lemma handle_other_errors_eq {A} err w :
  @handle_other_errors A err w = (Err err, with_events (error_toast err) w).
Proof.
  unfold handle_other_errors, error_toast, bind, toast_error, emit, ret, throw.
  destruct (truthy (error_response_error err)); simpl; [done|].
  destruct (truthy (error_message err)); simpl; [done|].
  unfold with_events. rewrite app_nil_r. by destruct w.
Qed.

Lemma response_rejected_log client e cfg err :
  (forall e cfg, respects log_grows (client e cfg)) ->
  respects log_grows (response_rejected net client e cfg err).
Proof.
  intros IH. unfold response_rejected, ApiClient_refreshToken, clearTokens.
  peel log_grows_refl log_grows_trans
    ltac:(first [ grows_leaf | apply transport_log
                | apply handle_other_errors_log | apply IH ]).
Qed.

(** Whatever happens next, the first thing a call of the client does is to
    send the request as the request interceptor leaves it. *)
Lemma client_first_request e config w :
  exists rest,
    log (client net e config w).2
    = log w ++ EvHttp e (authorize (localStorage w !! "accessToken") config)
               :: rest.
Proof.
  set (sent := authorize (localStorage w !! "accessToken") config).
  change (client net e config w)
    with (try_catch (transport net e sent)
            (response_rejected net (client_upto net 1) e sent) w).
  unfold try_catch, transport.
  destruct (net e (log w) sent) as [body|r m|m].
  + by exists [].
  + destruct (response_rejected_log (client_upto net 1) e sent
                (AxiosError (Some r) m) (client_upto_log net 1)
                (with_event (EvHttp e sent) w)) as [evs Hevs].
    exists evs. rewrite Hevs. simpl. by rewrite <- app_assoc.
  + destruct (response_rejected_log (client_upto net 1) e sent
                (AxiosError None m) (client_upto_log net 1)
                (with_event (EvHttp e sent) w)) as [evs Hevs].
    exists evs. rewrite Hevs. simpl. by rewrite <- app_assoc.
Qed.

(** the whole run of the client on an answer that starts no refresh *)
Lemma client_final_run e config w :
  let sent := authorize (localStorage w !! "accessToken") config in
  let answer := net e (log w) sent in
  final_answer config (localStorage w !! "refreshToken") answer ->
  client net e config w =
    (answer_outcome answer,
     with_events (EvHttp e sent :: outcome_toast (answer_outcome answer)) w).
Proof.
  intros sent answer Hfinal.
  unfold client. simpl. unfold client_call.
  unfold request_interceptor, bind, getItem, ret, try_catch. fold sent.
  unfold transport. fold answer.
  destruct answer as [body|r m|m]; simpl in *.
  - done.
  - unfold response_rejected. simpl.
    destruct (bool_decide (Some (ErrorResponse.status r) = Some 401%Z)
              && negb (Config._retry sent)) eqn:Hcond.
    + apply andb_true_iff in Hcond as [Hs Hf].
      apply bool_decide_eq_true in Hs. injection Hs as Hs.
      apply negb_true_iff in Hf. subst sent.
      rewrite authorize_retry in Hf.
      destruct Hfinal as [?|[?|Hno]]; [done|congruence|].
      unfold bind, try_catch, getItem, ret. simpl. rewrite Hno.
      rewrite handle_other_errors_eq. unfold with_events. simpl.
      by rewrite <- app_assoc.
    + rewrite handle_other_errors_eq. unfold with_events. simpl.
      by rewrite <- app_assoc.
  - unfold response_rejected. simpl.
    rewrite handle_other_errors_eq. unfold with_events. simpl.
    by rewrite <- app_assoc.
Qed.

(** the run up to the replay, when the refresh is fulfilled *)
Lemma client_refreshed_run e config w r m body :
  Config._retry config = false ->
  let original := authorize (localStorage w !! "accessToken") config in
  let stored := localStorage w !! "refreshToken" in
  let refresh := refresh_request (js_string stored) in
  net e (log w) original = Rejected r m ->
  ErrorResponse.status r = 401%Z ->
  truthy stored = true ->
  net PostRefresh (log w ++ [EvHttp e original]) refresh = Fulfilled body ->
  let accessToken := js_string (ApiResponse.accessToken body) in
  let replay := replay_request config accessToken in
  let w2 := with_localStorage (insert "accessToken" accessToken)
              (with_events [EvHttp e original; EvHttp PostRefresh refresh] w) in
  let answer := net e (log w2) replay in
  client net e config w =
    (answer_outcome answer,
     with_events (EvHttp e replay :: outcome_toast (answer_outcome answer)) w2).
Proof.
  intros Hflag original stored refresh Hfirst Hstatus Hstored Hrefresh
         accessToken replay w2 answer.
  unfold client. simpl. unfold client_call at 1.
  unfold request_interceptor, bind, getItem, ret, try_catch.
  unfold transport at 1. fold original. rewrite Hfirst.
  unfold response_rejected. simpl.
  unfold original at 1. rewrite authorize_retry, Hflag, Hstatus. simpl.
  unfold bind, try_catch, getItem, ret. simpl. fold stored. rewrite Hstored.
  unfold ApiClient_refreshToken, transport at 1. simpl.
  fold (refresh_request (js_string stored)). fold refresh.
  rewrite Hrefresh. simpl.
  rewrite client_call_flagged_run by done. simpl.
  rewrite lookup_insert_eq.
  assert (Hd : Config.data original = Config.data config)
    by apply authorize_data.
  rewrite !Hd, !authorize_replay.
  subst answer replay accessToken w2. simpl.
  rewrite <- app_assoc. simpl.
  destruct (net e _ (replay_request _ _)) as [body'|r' m'|m']; simpl.
  - unfold with_events, with_event. simpl. by rewrite <- !app_assoc.
  - rewrite handle_other_errors_eq. unfold with_events. simpl.
    by rewrite <- !app_assoc.
  - rewrite handle_other_errors_eq. unfold with_events. simpl.
    by rewrite <- !app_assoc.
Qed.

Lemma outcome_toast_no_http {A} (o : Outcome A) :
  http_calls (outcome_toast o) = [].
Proof.
  destruct o as [a|err]; [done|]. unfold outcome_toast, error_toast.
  by repeat case_match.
Qed.

(** X1.  Request interceptor: when [localStorage] holds a non-empty
    [accessToken], the request that the client sends first is the caller's
    request with the header [Authorization: Bearer <token>], whatever
    header the caller had set; body and retry flag are the caller's. *)
Theorem client_sends_stored_token e config w token :
  localStorage w !! "accessToken" = Some token ->
  token <> "" ->
  exists rest,
    events_since w (client net e config w).2
    = EvHttp e (Config.mk (Config.data config) (Some ("Bearer " +:+ token))
                          (Config._retry config)) :: rest.
Proof.
  intros Htok Hne.
  destruct (client_first_request e config w) as [rest Hrest].
  exists rest. apply events_since_app. rewrite Hrest.
  unfold authorize. rewrite Htok. simpl.
  by destruct (String.eqb_spec token "").
Qed.

(** X2.  Response interceptor, every path but the refresh: when the answer
    is a success, an error other than 401, a failure without response, a
    401 to a request already flagged as a retry, or a 401 while no refresh
    token is stored, the client sends exactly this one request, returns
    the answer (resp. throws the error), shows at most one error toast
    (the server's [error] text, else the error's message) and changes
    nothing else: no store, no [localStorage] key, no navigation. *)
Theorem client_single_request e config w :
  let sent := authorize (localStorage w !! "accessToken") config in
  let answer := net e (log w) sent in
  final_answer config (localStorage w !! "refreshToken") answer ->
  client net e config w =
    (answer_outcome answer,
     with_events (EvHttp e sent :: outcome_toast (answer_outcome answer)) w).
Proof. apply client_final_run. Qed.

(** X3.  The response interceptor takes the new token from the top level
    of the refresh answer ([response.data.accessToken]), while the session
    store reads it one level deeper ([response.data.data.accessToken]).
    When the refresh answer has no top-level [accessToken], the interceptor
    stores the text "undefined" as the access token and replays the
    request with the header [Bearer undefined]. *)
Theorem interceptor_reads_top_level_token e config w r m body :
  Config._retry config = false ->
  let original := authorize (localStorage w !! "accessToken") config in
  let stored := localStorage w !! "refreshToken" in
  net e (log w) original = Rejected r m ->
  ErrorResponse.status r = 401%Z ->
  truthy stored = true ->
  net PostRefresh (log w ++ [EvHttp e original])
      (refresh_request (js_string stored)) = Fulfilled body ->
  ApiResponse.accessToken body = None ->
  let w' := (client net e config w).2 in
  localStorage w' !! "accessToken" = Some "undefined" /\
  last (http_calls (events_since w w'))
    = Some (e, Config.mk (Config.data config) (Some "Bearer undefined") true).
Proof.
  intros Hflag original stored Hfirst Hstatus Hstored Hrefresh Hnone.
  rewrite (client_refreshed_run e config w r m body) by done.
  rewrite Hnone. simpl. split; [by rewrite lookup_insert_eq|].
  rewrite (events_since_app w _
    ([EvHttp e original; EvHttp PostRefresh (refresh_request (js_string stored));
      EvHttp e (replay_request config "undefined")] ++
     outcome_toast (answer_outcome _)))
    by (simpl; by rewrite <- !app_assoc).
  rewrite http_calls_app, outcome_toast_no_http, app_nil_r. done.
Qed.

(** X4.  [api.logout] never throws and always removes the three keys
    [accessToken], [refreshToken] and [user] from [localStorage]; it
    touches no store.  With a token stored it first posts that token to
    [/auth/logout] (body and header); with none it sends nothing at
    all. *)
Theorem api_logout_best_effort w :
  let token := localStorage w !! "accessToken" in
  let run := api_logout net w in
  run.1 = Ok tt /\
  same_stores w run.2 /\
  localStorage run.2 !! "accessToken" = None /\
  localStorage run.2 !! "refreshToken" = None /\
  localStorage run.2 !! "user" = None /\
  (if truthy token
   then exists rest,
     events_since w run.2
     = EvHttp PostLogout
         (Config.mk (LogoutData (js_string token))
                    (Some ("Bearer " +:+ js_string token)) false) :: rest
   else run.2 = with_localStorage clear_credentials w).
Proof.
  intros token. unfold api_logout, bind, getItem. simpl. fold token.
  destruct (truthy token) eqn:Htoken.
  - unfold try_catch, bind.
    pose proof (request_stores net PostLogout (LogoutData (js_string token)) w)
      as Hs.
    destruct (client_first_request PostLogout
                (Config.mk (LogoutData (js_string token)) None false) w)
      as [rest Hrest].
    fold (request net PostLogout (LogoutData (js_string token))) in Hrest.
    fold token in Hrest. unfold authorize in Hrest. rewrite Htoken in Hrest.
    simpl in Hrest.
    destruct (request net PostLogout _ w) as [[body|err] w1]; simpl in *.
    + repeat split; try apply Hs; try by simplify_map_eq.
      exists rest. by apply events_since_app.
    + repeat split; try apply Hs; try by simplify_map_eq.
      exists (rest ++ [EvConsole "Logout request failed:"]).
      apply events_since_app. simpl. rewrite Hrest.
      by rewrite <- app_assoc.
  - simpl. repeat split; by simplify_map_eq.
Qed.

End ClientRuns.

(** X1 on a signed-in session. *)
Lemma client_sends_stored_token_signed_in :
  exists rest,
    events_since signed_in (client offline GetUsers plain_request signed_in).2
    = EvHttp GetUsers (Config.mk NoData (Some "Bearer stale") false) :: rest.
Proof.
  apply (client_sends_stored_token offline GetUsers plain_request signed_in
           "stale"); [reflexivity | discriminate].
Defined.

(** X2 without a network: one request, one toast, the error thrown. *)
Lemma client_single_request_offline :
  client offline GetUsers plain_request signed_in
  = (Err (AxiosError None "Network Error"),
     with_events
       [EvHttp GetUsers (Config.mk NoData (Some "Bearer stale") false);
        EvToastError "Network Error"] signed_in).
Proof.
  apply (client_single_request offline GetUsers plain_request signed_in).
  exact I.
Defined.

(** X3 against a gateway whose refresh answer is the envelope that the
    session store expects. *)
Lemma interceptor_reads_top_level_token_enveloped :
  let w' := (client expired_enveloped GetUsers plain_request signed_in).2 in
  localStorage w' !! "accessToken" = Some "undefined" /\
  last (http_calls (events_since signed_in w'))
    = Some (GetUsers, Config.mk NoData (Some "Bearer undefined") true).
Proof.
  apply (interceptor_reads_top_level_token expired_enveloped GetUsers
           plain_request signed_in
           (ErrorResponse.mk 401 None) "Request failed with status code 401"
           (envelope (Some (RefreshResponse.mk (Some "fresh")
                                               (Some alice_info)))));
    reflexivity.
Defined.

(** * The permission check *)

Section PermissionQuery.

Variable net : forall e : Endpoint, list Event -> Config.t -> NetResult e.

(** the run of the client when the refresh is not fulfilled: the refresh
    error is the outcome *)
Lemma client_refresh_failed e config w r m :
  Config._retry config = false ->
  let original := authorize (localStorage w !! "accessToken") config in
  let stored := localStorage w !! "refreshToken" in
  net e (log w) original = Rejected r m ->
  ErrorResponse.status r = 401%Z ->
  truthy stored = true ->
  (forall body,
     net PostRefresh (log w ++ [EvHttp e original])
         (refresh_request (js_string stored)) <> Fulfilled body) ->
  exists err, (client net e config w).1 = Err err.
Proof.
  intros Hflag original stored Hfirst Hstatus Hstored Hrefresh.
  destruct (client net e config w) as [result w'] eqn:Hrun. simpl.
  unfold client in Hrun. simpl in Hrun.
  unfold client_call at 1 in Hrun.
  unfold request_interceptor, bind, getItem, ret, try_catch in Hrun.
  unfold transport at 1 in Hrun. fold original in Hrun.
  rewrite Hfirst in Hrun.
  unfold response_rejected in Hrun. simpl in Hrun.
  unfold original at 1 in Hrun.
  rewrite authorize_retry, Hflag, Hstatus in Hrun. simpl in Hrun.
  unfold bind, try_catch, getItem, ret in Hrun. simpl in Hrun.
  fold stored in Hrun. rewrite Hstored in Hrun.
  unfold ApiClient_refreshToken, transport at 1 in Hrun. simpl in Hrun.
  fold (refresh_request (js_string stored)) in Hrun.
  destruct (net PostRefresh _ _) as [body|r' m'|m'] eqn:Hanswer;
    simpl in Hrun.
  - by destruct (Hrefresh body).
  - injection Hrun as <- <-. eauto.
  - injection Hrun as <- <-. eauto.
Qed.

(** the outcome of a call of the client, read off the gateway *)
Lemma client_deciding_answer e config w :
  (client net e config w).1
  = match deciding_answer net e config w with
    | Some answer => answer_outcome answer
    | None => (client net e config w).1
    end /\
  (deciding_answer net e config w = None ->
   exists err, (client net e config w).1 = Err err).
Proof.
  unfold deciding_answer.
  set (original := authorize (localStorage w !! "accessToken") config).
  set (stored := localStorage w !! "refreshToken").
  destruct (net e (log w) original) as [body|r m|m] eqn:Hfirst.
  - split; [|done].
    rewrite (client_final_run net e config w); fold original;
      rewrite Hfirst; done.
  - destruct (bool_decide (ErrorResponse.status r = 401%Z)
              && negb (Config._retry config) && truthy stored) eqn:Hcond.
    + apply andb_true_iff in Hcond as [Hcond Hstored].
      apply andb_true_iff in Hcond as [Hstatus Hflag].
      apply bool_decide_eq_true in Hstatus. apply negb_true_iff in Hflag.
      destruct (net PostRefresh (log w ++ [EvHttp e original])
                    (refresh_request (js_string stored)))
        as [body|r' m'|m'] eqn:Hrefresh.
      * split; [|done].
        rewrite (client_refreshed_run net e config w r m body) by done.
        reflexivity.
      * split; [done|]. intros _.
        apply (client_refresh_failed e config w r m); try done.
        fold original stored. by rewrite Hrefresh.
      * split; [done|]. intros _.
        apply (client_refresh_failed e config w r m); try done.
        fold original stored. by rewrite Hrefresh.
    + split; [|done].
      rewrite (client_final_run net e config w); fold original;
        rewrite Hfirst; [done|]. simpl. fold stored.
      apply andb_false_iff in Hcond as [Hcond|Hstored]; [|auto].
      apply andb_false_iff in Hcond as [Hstatus|Hflag].
      * left. by apply bool_decide_eq_false in Hstatus.
      * right; left. by apply negb_false_iff in Hflag.
  - split; [|done].
    rewrite (client_final_run net e config w); fold original;
      rewrite Hfirst; done.
Qed.

(** C7.  [checkPermission] never throws: it always returns a boolean.  It
    leaves the three stores and the persisted session as they were.  It
    does ask the gateway: the first thing it does is to send the check of
    this very user, resource and action.  And what it returns is read off
    the gateway's answers alone: [hasPermission] of the answer that
    decides the call, when that answer is fulfilled and has [data], and
    [false] in every other case (an error answer, no answer at all, an
    answer without [data], a refresh that fails). *)
Theorem checkPermission_fails_closed userId resource action w :
  let config :=
    Config.mk (CheckPermissionData userId resource action) None false in
  let result := (checkPermission net userId resource action w).1 in
  let w' := (checkPermission net userId resource action w).2 in
  result = Ok (granted (deciding_answer net PostCheckPermission config w)) /\
  same_stores w w' /\
  exists rest,
    events_since w w'
    = EvHttp PostCheckPermission
        (authorize (localStorage w !! "accessToken") config) :: rest.
Proof.
  intros config.
  destruct (client_deciding_answer PostCheckPermission config w)
    as [Hanswer Hnone].
  destruct (client_first_request net PostCheckPermission config w)
    as [rest Hrest].
  pose proof (request_stores net PostCheckPermission
    (CheckPermissionData userId resource action) w) as Hs.
  unfold checkPermission, bind, try_catch, api_checkPermission. simpl.
  change (request net PostCheckPermission
            (CheckPermissionData userId resource action) w)
    with (client net PostCheckPermission config w) in *.
  destruct (client net PostCheckPermission config w) as [[body|err] w1];
    simpl in *.
  - assert (Hgranted :
      granted (deciding_answer net PostCheckPermission config w)
      = match @ApiResponse.data PermissionCheck.t body with
        | Some d => PermissionCheck.hasPermission d
        | None => false
        end).
    { destruct (deciding_answer net PostCheckPermission config w)
        as [[body'|r m|m]|]; simpl in *.
      - by injection Hanswer as <-.
      - done.
      - done.
      - by destruct Hnone as [err ?]. }
    rewrite Hgranted.
    destruct (@ApiResponse.data PermissionCheck.t body) as [d|]; simpl.
    + split; [done|]. split; [done|].
      exists rest. by apply events_since_app.
    + split; [done|]. split; [apply Hs|].
      eexists. apply events_since_app. simpl. rewrite Hrest.
      by rewrite <- app_assoc.
  - assert (Hgranted :
      granted (deciding_answer net PostCheckPermission config w) = false).
    { destruct (deciding_answer net PostCheckPermission config w)
        as [[body'|r m|m]|]; simpl in *; done. }
    rewrite Hgranted.
    split; [done|]. split; [apply Hs|].
    eexists. apply events_since_app. simpl. rewrite Hrest.
    by rewrite <- app_assoc.
Qed.

End PermissionQuery.

(** C7 at work.  The gateway grants the permission and [true] is
    returned; without a network [false] is returned. *)
Lemma checkPermission_granted :
  (checkPermission (gateway true) "u1" "users" "read" initial_world).1
  = Ok true /\
  (checkPermission offline "u1" "users" "read" initial_world).1 = Ok false.
Proof.
  split.
  - exact (proj1 (checkPermission_fails_closed (gateway true) "u1" "users"
                    "read" initial_world)).
  - exact (proj1 (checkPermission_fails_closed offline "u1" "users"
                    "read" initial_world)).
Defined.

(** * Beyond the claims: the session store *)

Section SessionRuns.

Variable net : forall e : Endpoint, list Event -> Config.t -> NetResult e.

Lemma login_success_localStorage credentials w response d :
  (api_login net (LoginRequest.email credentials)
             (LoginRequest.password credentials)
             (set_auth (auth_loading true) w).2).1 = Ok response ->
  ApiResponse.data response = Some d ->
  localStorage (login net credentials w).2
    = <["refreshToken" := js_string (LoginResponse.refreshToken d)]>
        (<["accessToken" := js_string (LoginResponse.accessToken d)]>
           (localStorage
              (api_login net (LoginRequest.email credentials)
                 (LoginRequest.password credentials)
                 (set_auth (auth_loading true) w).2).2)).
Proof.
  intros Hok Hd.
  unfold login, bind, try_catch. simpl in *.
  destruct (api_login net _ _ _) as [[body|err] w1]; simpl in *; [|done].
  injection Hok as ->. unfold lift.
  replace (@ApiResponse.data LoginResponse.t response) with (Some d).
  done.
Qed.

Lemma logout_localStorage w :
  localStorage (logout net w).2 !! "accessToken" = None /\
  localStorage (logout net w).2 !! "refreshToken" = None.
Proof.
  unfold logout, bind, try_catch.
  destruct (api_logout net w) as [[[]|err] w1]; simpl;
    split; by simplify_map_eq.
Qed.

(** X5.  Called on the store, [refreshToken()] never throws "No refresh
    token available".  While the member still holds the function (as it
    does when the store is created), the guard sees the function, which is
    truthy, and the first effect is a POST to [/auth/refresh] whose body
    names no token.  Once a [set] has written a token or [null] over the
    member, the call is a TypeError that sends nothing and changes
    nothing; [logout] always leaves the store in that state. *)
Theorem refreshToken_guard_never_fires w :
  let run := call_refreshToken net w in
  run.1 <> Err (PlainError "No refresh token available") /\
  match AuthState.refreshToken (auth w) with
  | RefreshAction =>
      exists rest,
        events_since w run.2
        = EvHttp PostRefresh
            (authorize (localStorage w !! "accessToken")
               (Config.mk EmptyObject None false)) :: rest
  | RefreshValue _ => (exists msg, run.1 = Err (TypeError msg)) /\ run.2 = w
  end /\
  (exists msg,
     call_refreshToken net (logout net w).2
     = (Err (TypeError msg), (logout net w).2)).
Proof.
  intros run. subst run. split; [|split].
  - destruct (AuthState.refreshToken (auth w)) as [|token] eqn:Hmember;
      [|by rewrite (call_refreshToken_overwritten net w token)].
    rewrite call_refreshToken_action by done.
    unfold refreshToken, bind, get_auth. rewrite Hmember. simpl.
    unfold try_catch, bind.
    pose proof (request_outcome net PostRefresh EmptyObject w) as Hout.
    destruct (request net PostRefresh EmptyObject w) as [[body|err] w1];
      simpl in *.
    + unfold lift.
      by destruct (@ApiResponse.data RefreshResponse.t body) as [d|].
    + destruct Hout as (r & m & ->). done.
  - destruct (AuthState.refreshToken (auth w)) as [|token] eqn:Hmember.
    + rewrite call_refreshToken_action by done.
      unfold refreshToken, bind, get_auth. rewrite Hmember. simpl.
      unfold try_catch, bind.
      destruct (client_first_request net PostRefresh
                  (Config.mk EmptyObject None false) w) as [rest Hrest].
      fold (request net PostRefresh EmptyObject) in Hrest.
      set (attempt := request net PostRefresh EmptyObject w) in *.
      destruct attempt as [[body|err] w1]; simpl in *.
      * unfold lift.
        destruct (@ApiResponse.data RefreshResponse.t body) as [d|]; simpl;
          eexists; apply events_since_app; simpl; rewrite Hrest;
          rewrite <- ?app_assoc; simpl; reflexivity.
      * eexists. apply events_since_app. simpl. rewrite Hrest.
        rewrite <- ?app_assoc. simpl. reflexivity.
    + rewrite (call_refreshToken_overwritten net w token) by done. eauto.
  - eexists. apply (call_refreshToken_overwritten net _ None).
    by rewrite logout_auth.
Qed.

(** X6.  A login that the server accepts: [login] returns normally; the
    session holds the user and both tokens of the answer with
    [isAuthenticated] true and [isLoading] false, and so does the
    persisted snapshot; [localStorage] gets the keys [accessToken] and
    [refreshToken] (as JavaScript turns them into text); the last event is
    the toast "Login successful!". *)
Theorem login_success_stores_session credentials w response d :
  let attempt :=
    api_login net (LoginRequest.email credentials)
              (LoginRequest.password credentials)
              (set_auth (auth_loading true) w).2 in
  attempt.1 = Ok response ->
  ApiResponse.data response = Some d ->
  let run := login net credentials w in
  let accessToken := LoginResponse.accessToken d in
  let refreshToken := LoginResponse.refreshToken d in
  run.1 = Ok tt /\
  auth run.2
    = AuthState.mk (LoginResponse.userInfo d) accessToken
                   (RefreshValue refreshToken) true false /\
  auth_storage run.2
    = Some (Persisted.mk (LoginResponse.userInfo d) accessToken refreshToken
                         true) /\
  localStorage run.2
    = <["refreshToken" := js_string refreshToken]>
        (<["accessToken" := js_string accessToken]> (localStorage attempt.2))
  /\
  last (log run.2) = Some (EvToastSuccess "Login successful!").
Proof.
  intros attempt Hok Hd. subst attempt.
  unfold login, bind, try_catch. simpl in *.
  destruct (api_login net _ _ _) as [[body|err] w1]; simpl in *; [|done].
  injection Hok as ->. unfold lift.
  replace (@ApiResponse.data LoginResponse.t response) with (Some d).
  simpl. repeat split. apply last_snoc.
Qed.

(** X7.  A refresh that the server accepts, on a store whose member
    still holds the function: [refreshToken()] returns normally, replaces
    token and user of the session by those of the answer, sets
    [isAuthenticated], keeps [isLoading] as it was and writes the new
    access token to [localStorage].  The member is not written, so it
    still holds the function and the store can refresh again; the key
    [refreshToken] of [localStorage] is not written either. *)
Theorem refreshToken_success_updates_session w response d :
  AuthState.refreshToken (auth w) = RefreshAction ->
  let attempt := request net PostRefresh EmptyObject w in
  attempt.1 = Ok response ->
  ApiResponse.data response = Some d ->
  let run := call_refreshToken net w in
  run.1 = Ok tt /\
  auth run.2
    = AuthState.mk (RefreshResponse.userInfo d) (RefreshResponse.accessToken d)
                   RefreshAction true (AuthState.isLoading (auth w)) /\
  localStorage run.2
    = <["accessToken" := js_string (RefreshResponse.accessToken d)]>
        (localStorage attempt.2).
Proof.
  intros Hmember attempt Hok Hd. subst attempt.
  rewrite call_refreshToken_action by done.
  unfold refreshToken, bind, get_auth. rewrite Hmember. simpl.
  unfold try_catch, bind.
  pose proof (request_stores net PostRefresh EmptyObject w) as (Ha & _).
  destruct (request net PostRefresh EmptyObject w) as [[body|err] w1];
    simpl in *; [|done].
  injection Hok as ->. unfold lift.
  replace (@ApiResponse.data RefreshResponse.t response) with (Some d).
  simpl. rewrite Ha, Hmember. done.
Qed.

(** X8.  Store and client together: after a login that the server accepts
    with a non-empty access token, the next request through the client
    carries [Authorization: Bearer <that token>]. *)
Theorem requests_after_login_carry_token credentials w response d token
    e config :
  let attempt :=
    api_login net (LoginRequest.email credentials)
              (LoginRequest.password credentials)
              (set_auth (auth_loading true) w).2 in
  attempt.1 = Ok response ->
  ApiResponse.data response = Some d ->
  LoginResponse.accessToken d = Some token ->
  token <> "" ->
  let w' := (login net credentials w).2 in
  exists rest,
    events_since w' (client net e config w').2
    = EvHttp e (Config.mk (Config.data config) (Some ("Bearer " +:+ token))
                          (Config._retry config)) :: rest.
Proof.
  intros attempt Hok Hd Htok Hne w'.
  pose proof (login_success_localStorage credentials w response d
                Hok Hd) as Hls.
  destruct (client_first_request net e config w') as [rest Hrest].
  exists rest. apply events_since_app. rewrite Hrest.
  subst w'. rewrite Hls, Htok. simpl.
  rewrite lookup_insert_ne by done. rewrite lookup_insert_eq.
  unfold authorize. simpl.
  by destruct (String.eqb_spec token "").
Qed.

(** X9.  Store and client together: after [logout], whatever the server
    said to it, the next request through the client goes out exactly as
    the caller made it (no [Authorization] header is added), and no answer
    to it starts a refresh: one request, the answer returned. *)
Theorem requests_after_logout_are_anonymous w e config :
  let w' := (logout net w).2 in
  let answer := net e (log w') config in
  client net e config w' =
    (answer_outcome answer,
     with_events (EvHttp e config :: outcome_toast (answer_outcome answer)) w').
Proof.
  intros w' answer.
  destruct (logout_localStorage w) as [Ha Hr]. fold w' in Ha, Hr.
  pose proof (client_final_run net e config w') as Hrun. simpl in Hrun.
  rewrite Ha, Hr in Hrun. unfold authorize in Hrun. simpl in Hrun.
  apply Hrun. fold answer. destruct answer; simpl; auto.
Qed.

End SessionRuns.

(** X6 on the first login of alice. *)
Lemma login_success_stores_session_alice :
  let run := login (gateway true) alice_login initial_world in
  run.1 = Ok tt /\
  auth run.2
    = AuthState.mk (Some alice_info) (Some "t1") (RefreshValue (Some "r1"))
                   true false /\
  auth_storage run.2
    = Some (Persisted.mk (Some alice_info) (Some "t1") (Some "r1") true) /\
  localStorage run.2 = <["refreshToken" := "r1"]> (<["accessToken" := "t1"]> ∅)
  /\
  last (log run.2) = Some (EvToastSuccess "Login successful!").
Proof.
  apply (login_success_stores_session (gateway true) alice_login
           initial_world (envelope (Some alice_session)) alice_session);
    reflexivity.
Defined.

(** X7 on a store that has just been created. *)
Lemma refreshToken_success_updates_session_fresh :
  let run := call_refreshToken (gateway true) initial_world in
  run.1 = Ok tt /\
  auth run.2
    = AuthState.mk (Some alice_info) (Some "t2") RefreshAction true false /\
  localStorage run.2 = <["accessToken" := "t2"]> ∅.
Proof.
  apply (refreshToken_success_updates_session (gateway true) initial_world
           (ApiResponse.mk true None (Some alice_refreshed) None None
                           (Some "t2"))
           alice_refreshed);
    reflexivity.
Defined.

(** X8: alice logs in, then lists the users. *)
Lemma requests_after_login_carry_token_alice :
  let w' := (login (gateway true) alice_login initial_world).2 in
  exists rest,
    events_since w' (client (gateway true) GetUsers plain_request w').2
    = EvHttp GetUsers (Config.mk NoData (Some "Bearer t1") false) :: rest.
Proof.
  apply (requests_after_login_carry_token (gateway true) alice_login
           initial_world (envelope (Some alice_session)) alice_session "t1"
           GetUsers plain_request); [reflexivity..|discriminate].
Defined.

(** * Beyond the claims: the user store *)

Lemma or_else_nonempty o fallback : fallback <> "" -> or_else o fallback <> "".
Proof.
  intros Hf. unfold or_else. destruct o as [s|]; [|done].
  by destruct (String.eqb_spec s "").
Qed.

Section UserRuns.

Variable net : forall e : Endpoint, list Event -> Config.t -> NetResult e.

Lemma array_filter_records userId (l l' : list (option User.t)) :
  array_filter
    (fun user =>
       match user_has_id userId user with
       | Ok b => Ok (negb b)
       | Err e => Err e
       end) l = Ok l' ->
  exists records,
    l = map Some records /\
    l' = map Some (filter (fun u => User.userId u <> userId) records).
Proof.
  revert l'. induction l as [|r l IH]; intros l' H; simpl in H.
  - injection H as <-. by exists [].
  - destruct r as [u|]; simpl in H; [|done].
    destruct (array_filter _ l) as [l0|e]; [|done].
    destruct (IH l0 eq_refl) as (records & -> & ->).
    injection H as <-. exists (u :: records). split; [done|].
    rewrite filter_cons.
    destruct (String.eqb_spec (User.userId u) userId) as [Heq|Hne]; simpl.
    + by rewrite decide_False by (intros ?; done).
    + by rewrite decide_True.
Qed.

Lemma records_with_id_removed userId (records : list User.t) :
  records_with_id userId
    (map Some (filter (fun u => User.userId u <> userId) records)) = [].
Proof.
  unfold records_with_id.
  induction records as [|u records IH]; [done|].
  rewrite filter_cons. destruct (decide (User.userId u <> userId)) as [Hne|Heq].
  - simpl. rewrite filter_cons. by rewrite decide_False by (intros ?; done).
  - done.
Qed.

Lemma array_map_hole userId (updatedUser : option User.t) l :
  None ∈ l ->
  array_map
    (fun user =>
       match user_has_id userId user with
       | Ok b => Ok (if b then updatedUser else user)
       | Err e => Err e
       end) l = undefined_property.
Proof.
  induction l as [|r l IH]; intros Hin; [by apply elem_of_nil in Hin|].
  simpl. destruct r as [u|]; simpl; [|done].
  apply elem_of_cons in Hin as [?|Hin]; [done|]. by rewrite IH.
Qed.

Lemma array_filter_hole userId (l : list (option User.t)) :
  None ∈ l ->
  array_filter
    (fun user =>
       match user_has_id userId user with
       | Ok b => Ok (negb b)
       | Err e => Err e
       end) l = undefined_property.
Proof.
  induction l as [|r l IH]; intros Hin; [by apply elem_of_nil in Hin|].
  simpl. destruct r as [u|]; simpl; [|done].
  apply elem_of_cons in Hin as [?|Hin]; [done|]. by rewrite IH.
Qed.

(** X10.  When [deleteUser] returns normally, the server has answered the
    DELETE request with a success, the collection had no holes, and the
    new collection is the old one without the records of that id, in the
    old order: no record with that id is left and every other record is
    kept.  [currentUser] is cleared if it had that id and kept
    otherwise. *)
Theorem deleteUser_removes userId w :
  (deleteUser net userId w).1 = Ok tt ->
  exists records response hist cfg,
    net (DeleteUser userId) hist cfg = Fulfilled response /\
    let before := userStore w in
    let after := userStore (deleteUser net userId w).2 in
    UserState.users before = map Some records /\
    UserState.users after
      = map Some (filter (fun u => User.userId u <> userId) records) /\
    records_with_id userId (UserState.users after) = [] /\
    (forall user,
       UserState.currentUser before = Some user ->
       User.userId user = userId ->
       UserState.currentUser after = None) /\
    ((forall user,
        UserState.currentUser before = Some user ->
        User.userId user <> userId) ->
     UserState.currentUser after = UserState.currentUser before).
Proof.
  unfold deleteUser, bind, try_catch. simpl. unfold api_deleteUser.
  match goal with |- context [request net (DeleteUser userId) ?d ?w1] =>
    pose proof (request_outcome net (DeleteUser userId) d w1) as Hout;
    pose proof (request_stores net (DeleteUser userId) d w1) as (_ & Hu & _);
    destruct (request net (DeleteUser userId) d w1) as [[body|err'] w2]
  end; simpl in *; [|done].
  unfold lift.
  destruct (array_filter _ (UserState.users (userStore w2))) as [users|e]
    eqn:Hfilter; simpl; [|done].
  intros _. apply array_filter_records in Hfilter as (records & Hl & ->).
  rewrite Hu in Hl. simpl in Hl. rewrite Hu. simpl.
  destruct Hout as (hist & cfg & Hnet & _).
  exists records, body, hist, cfg.
  split; [done|]. split; [done|]. split; [done|]. split; [|split].
  - apply records_with_id_removed.
  - intros user -> Hid. simpl. by rewrite (proj2 (String.eqb_eq _ _) Hid).
  - intros Hother. destruct (UserState.currentUser (userStore w))
      as [user|]; simpl; [|done].
    specialize (Hother user eq_refl).
    by rewrite (proj2 (String.eqb_neq _ _) Hother).
Qed.

(** X11.  When the request of [createUser], [updateUser] or [deleteUser]
    fails, the action throws that same error; collection and
    [currentUser] are as before the call; [isLoading] is false; [error]
    holds the server's [error] text if it has a non-empty one and the
    fallback of the action otherwise; the last event is the error toast
    with that message. *)
Theorem user_mutation_failure m w err :
  mutation_request_error net m (set_user users_begin w).2 = Some err ->
  let run := run_mutation net m w in
  let before := userStore w in
  let after := userStore run.2 in
  let message := or_else (error_response_error err) (mutation_fallback m) in
  run.1 = Err err /\
  UserState.users after = UserState.users before /\
  UserState.currentUser after = UserState.currentUser before /\
  UserState.isLoading after = false /\
  UserState.error after = Some message /\
  last (log run.2) = Some (EvToastError message).
Proof.
  destruct m as [userData|userId userData|userId]; simpl;
    [unfold createUser, api_createUser
    |unfold updateUser, api_updateUser
    |unfold deleteUser, api_deleteUser];
    unfold bind, try_catch; simpl;
    match goal with |- context [request net ?e ?d ?w1] =>
      pose proof (request_stores net e d w1) as (_ & Hu & _);
      destruct (request net e d w1) as [[body|err'] w2]
    end; simpl in *; try done;
    intros [= ->]; rewrite Hu; simpl; repeat split; apply last_snoc.
Qed.

(** X12.  [fetchUsers] never throws and always lowers [isLoading].  On
    success the collection is replaced by the list of the answer (by the
    empty list when the answer has no [data]), so it has no holes, and
    [error] is null; on failure the collection is kept, [error] holds the
    server's text or "Failed to fetch users", and that message is the last
    toast.  [currentUser] is never touched. *)
Theorem fetchUsers_replaces_or_records w :
  let attempt := api_getUsers net (set_user users_begin w).2 in
  let run := fetchUsers net w in
  let before := userStore w in
  let after := userStore run.2 in
  run.1 = Ok tt /\
  UserState.currentUser after = UserState.currentUser before /\
  UserState.isLoading after = false /\
  match attempt.1 with
  | Ok response =>
      UserState.users after
        = match ApiResponse.data response with
          | Some l => map Some l
          | None => []
          end /\
      UserState.error after = None /\
      without_holes (UserState.users after)
  | Err err =>
      let message :=
        or_else (error_response_error err) "Failed to fetch users" in
      UserState.users after = UserState.users before /\
      UserState.error after = Some message /\
      last (log run.2) = Some (EvToastError message)
  end.
Proof.
  unfold fetchUsers, bind, try_catch. simpl. unfold api_getUsers.
  match goal with |- context [request net ?e ?d ?w1] =>
    pose proof (request_stores net e d w1) as (_ & Hu & _);
    destruct (request net e d w1) as [[body|err'] w2]
  end; simpl in *; rewrite Hu; simpl.
  - repeat split. unfold without_holes.
    destruct (@ApiResponse.data (list User.t) body) as [l|]; [|done].
    apply Forall_forall. intros r Hr. apply list_elem_of_fmap in Hr.
    destruct Hr as (u & -> & _). eauto.
  - repeat split. apply last_snoc.
Qed.

(** X13.  [fetchUserById] never throws and always lowers [isLoading].  On
    success [currentUser] becomes the [data] of the answer, also when the
    answer has none; on failure it is kept, [error] holds the server's
    text or "Failed to fetch user", and that message is the last toast.
    The collection is never touched: a fetched user is not merged into
    it. *)
Theorem fetchUserById_sets_current userId w :
  let attempt := api_getUserById net userId (set_user users_begin w).2 in
  let run := fetchUserById net userId w in
  let before := userStore w in
  let after := userStore run.2 in
  run.1 = Ok tt /\
  UserState.users after = UserState.users before /\
  UserState.isLoading after = false /\
  match attempt.1 with
  | Ok response =>
      UserState.currentUser after = ApiResponse.data response /\
      UserState.error after = None
  | Err err =>
      let message :=
        or_else (error_response_error err) "Failed to fetch user" in
      UserState.currentUser after = UserState.currentUser before /\
      UserState.error after = Some message /\
      last (log run.2) = Some (EvToastError message)
  end.
Proof.
  unfold fetchUserById, bind, try_catch. simpl. unfold api_getUserById.
  match goal with |- context [request net ?e ?d ?w1] =>
    pose proof (request_stores net e d w1) as (_ & Hu & _);
    destruct (request net e d w1) as [[body|err'] w2]
  end; simpl in *; rewrite Hu; simpl.
  - repeat split.
  - repeat split. apply last_snoc.
Qed.

(** X14.  A hole in the collection (an [undefined] entry, as [createUser]
    leaves one when the server answers without [data]) blocks every later
    update and delete: although the server accepts the request, the
    action throws a TypeError, collection and [currentUser] stay as they
    were, and [error] holds the fallback of the action. *)
Theorem hole_blocks_update_and_delete userId userData w :
  None ∈ UserState.users (userStore w) ->
  let w1 := (set_user users_begin w).2 in
  (succeeded (api_updateUser net userId userData w1).1 ->
   let run := updateUser net userId userData w in
   (exists msg, run.1 = Err (TypeError msg)) /\
   UserState.users (userStore run.2) = UserState.users (userStore w) /\
   UserState.currentUser (userStore run.2)
     = UserState.currentUser (userStore w) /\
   UserState.error (userStore run.2) = Some "Failed to update user") /\
  (succeeded (api_deleteUser net userId w1).1 ->
   let run := deleteUser net userId w in
   (exists msg, run.1 = Err (TypeError msg)) /\
   UserState.users (userStore run.2) = UserState.users (userStore w) /\
   UserState.currentUser (userStore run.2)
     = UserState.currentUser (userStore w) /\
   UserState.error (userStore run.2) = Some "Failed to delete user").
Proof.
  intros Hhole w1. subst w1. split.
  - unfold updateUser, bind, try_catch. simpl. unfold api_updateUser.
    match goal with |- context [request net ?e ?d ?w0] =>
      pose proof (request_stores net e d w0) as (_ & Hu & _);
      destruct (request net e d w0) as [[body|err'] w2]
    end; simpl in *; [|done].
    intros _. unfold lift. rewrite Hu. simpl.
    rewrite array_map_hole by done. unfold undefined_property. simpl.
    rewrite Hu. eauto.
  - unfold deleteUser, bind, try_catch. simpl. unfold api_deleteUser.
    match goal with |- context [request net ?e ?d ?w0] =>
      pose proof (request_stores net e d w0) as (_ & Hu & _);
      destruct (request net e d w0) as [[body|err'] w2]
    end; simpl in *; [|done].
    intros _. unfold lift. rewrite Hu. simpl.
    rewrite array_filter_hole by done. unfold undefined_property. simpl.
    rewrite Hu. eauto.
Qed.

End UserRuns.

(** X10: alice is selected and deleted; bob stays. *)
Lemma deleteUser_removes_alice :
  let w := with_users [Some alice; Some bob] (Some alice) in
  exists records response hist cfg,
    bare (DeleteUser "u1") hist cfg = Fulfilled response /\
    let before := userStore w in
    let after := userStore (deleteUser bare "u1" w).2 in
    UserState.users before = map Some records /\
    UserState.users after
      = map Some (filter (fun u => User.userId u <> "u1") records) /\
    records_with_id "u1" (UserState.users after) = [] /\
    (forall user,
       UserState.currentUser before = Some user ->
       User.userId user = "u1" ->
       UserState.currentUser after = None) /\
    ((forall user,
        UserState.currentUser before = Some user ->
        User.userId user <> "u1") ->
     UserState.currentUser after = UserState.currentUser before).
Proof.
  apply (deleteUser_removes bare "u1"
           (with_users [Some alice; Some bob] (Some alice))).
  reflexivity.
Defined.

(** X11 without a network: the rename of alice fails. *)
Lemma user_mutation_failure_offline :
  let w := with_users [Some alice; Some bob] (Some alice) in
  let run := updateUser offline "u1" rename_request w in
  run.1 = Err (AxiosError None "Network Error") /\
  UserState.users (userStore run.2) = [Some alice; Some bob] /\
  UserState.currentUser (userStore run.2) = Some alice /\
  UserState.isLoading (userStore run.2) = false /\
  UserState.error (userStore run.2) = Some "Failed to update user" /\
  last (log run.2) = Some (EvToastError "Failed to update user").
Proof.
  apply (user_mutation_failure offline (UpdateUserM "u1" rename_request)
           (with_users [Some alice; Some bob] (Some alice))
           (AxiosError None "Network Error")).
  reflexivity.
Defined.

(** X14: the server answers a creation without [data]; from then on no
    user can be renamed. *)
Lemma hole_blocks_update_after_create :
  let w := (createUser bare alice_request
              (with_users [Some bob] None)).2 in
  let run := updateUser bare "u2" rename_request w in
  (exists msg, run.1 = Err (TypeError msg)) /\
  UserState.users (userStore run.2) = [Some bob; None] /\
  UserState.currentUser (userStore run.2) = None /\
  UserState.error (userStore run.2) = Some "Failed to update user".
Proof.
  apply (hole_blocks_update_and_delete bare "u2" rename_request
           (createUser bare alice_request (with_users [Some bob] None)).2).
  - apply (list_elem_of_lookup_2 _ 1%nat). reflexivity.
  - exact I.
Defined.

(** * Beyond the claims: the authorization store *)

Section AuthorizationRuns.

Variable net : forall e : Endpoint, list Event -> Config.t -> NetResult e.

Lemma fetchUserRoles_caches userId w response :
  (api_getUserRoles net userId w).1 = Ok response ->
  (fetchUserRoles net userId w).1 = Ok tt /\
  authorization (fetchUserRoles net userId w).2
  = AuthorizationState.mk
      (AuthorizationState.roles (authorization w))
      (AuthorizationState.permissions (authorization w))
      (<[userId := ApiResponse.data response]>
         (AuthorizationState.userRoles (authorization w)))
      (AuthorizationState.userPermissions (authorization w))
      (AuthorizationState.isLoading (authorization w))
      (AuthorizationState.error (authorization w)).
Proof.
  unfold fetchUserRoles, try_catch, bind, api_getUserRoles.
  pose proof (request_stores net (GetUserRoles userId) NoData w)
    as (_ & _ & Hz & _).
  destruct (request net (GetUserRoles userId) NoData w) as [[body|err] w1];
    simpl in *; [|done].
  intros [= ->]. by rewrite Hz.
Qed.

Lemma fetchUserPermissions_caches userId w response :
  (api_getUserPermissions net userId w).1 = Ok response ->
  (fetchUserPermissions net userId w).1 = Ok tt /\
  authorization (fetchUserPermissions net userId w).2
  = AuthorizationState.mk
      (AuthorizationState.roles (authorization w))
      (AuthorizationState.permissions (authorization w))
      (AuthorizationState.userRoles (authorization w))
      (<[userId := ApiResponse.data response]>
         (AuthorizationState.userPermissions (authorization w)))
      (AuthorizationState.isLoading (authorization w))
      (AuthorizationState.error (authorization w)).
Proof.
  unfold fetchUserPermissions, try_catch, bind, api_getUserPermissions.
  pose proof (request_stores net (GetUserPermissions userId) NoData w)
    as (_ & _ & Hz & _).
  destruct (request net (GetUserPermissions userId) NoData w)
    as [[body|err] w1]; simpl in *; [|done].
  intros [= ->]. by rewrite Hz.
Qed.

(** X15.  [fetchRoles] and [fetchPermissions] never throw and always
    lower [isLoading].  On success the collection becomes the [data] of
    the answer as it is, so it becomes [undefined] when the answer has
    none (the user store falls back to the empty list there), and [error]
    is null; on failure the collection is kept and [error] holds the
    server's text or the fallback.  Either way the only thing that happens
    after the request is that one state change: unlike the user store,
    this store shows no toast of its own.  The other collection and both
    caches are never touched. *)
Theorem collection_fetch_replaces_or_records w :
  (let attempt :=
     api_getRoles net (set_authorization authorization_begin w).2 in
   let run := fetchRoles net w in
   let before := authorization w in
   let after := authorization run.2 in
   run.1 = Ok tt /\
   AuthorizationState.permissions after
     = AuthorizationState.permissions before /\
   AuthorizationState.userRoles after = AuthorizationState.userRoles before /\
   AuthorizationState.userPermissions after
     = AuthorizationState.userPermissions before /\
   AuthorizationState.isLoading after = false /\
   log run.2 = log attempt.2 ++ [EvSet (AuthorizationSnap after)] /\
   match attempt.1 with
   | Ok response =>
       AuthorizationState.roles after
         = (map Some <$> ApiResponse.data response) /\
       AuthorizationState.error after = None
   | Err err =>
       AuthorizationState.roles after = AuthorizationState.roles before /\
       AuthorizationState.error after
         = Some (or_else (error_response_error err) "Failed to fetch roles")
   end) /\
  (let attempt :=
     api_getPermissions net (set_authorization authorization_begin w).2 in
   let run := fetchPermissions net w in
   let before := authorization w in
   let after := authorization run.2 in
   run.1 = Ok tt /\
   AuthorizationState.roles after = AuthorizationState.roles before /\
   AuthorizationState.userRoles after = AuthorizationState.userRoles before /\
   AuthorizationState.userPermissions after
     = AuthorizationState.userPermissions before /\
   AuthorizationState.isLoading after = false /\
   log run.2 = log attempt.2 ++ [EvSet (AuthorizationSnap after)] /\
   match attempt.1 with
   | Ok response =>
       AuthorizationState.permissions after
         = (map Some <$> ApiResponse.data response) /\
       AuthorizationState.error after = None
   | Err err =>
       AuthorizationState.permissions after
         = AuthorizationState.permissions before /\
       AuthorizationState.error after
         = Some (or_else (error_response_error err)
                         "Failed to fetch permissions")
   end).
Proof.
  split.
  - unfold fetchRoles, bind, try_catch. simpl. unfold api_getRoles.
    match goal with |- context [request net ?e ?d ?w1] =>
      pose proof (request_stores net e d w1) as (_ & _ & Hz & _);
      destruct (request net e d w1) as [[body|err'] w2]
    end; simpl in *; rewrite Hz; simpl; repeat split.
  - unfold fetchPermissions, bind, try_catch. simpl.
    unfold api_getPermissions.
    match goal with |- context [request net ?e ?d ?w1] =>
      pose proof (request_stores net e d w1) as (_ & _ & Hz & _);
      destruct (request net e d w1) as [[body|err'] w2]
    end; simpl in *; rewrite Hz; simpl; repeat split.
Qed.

(** X16.  [createRole] on a store whose [roles] is [undefined] (as
    [fetchRoles] leaves it after an answer without [data]): although the
    server creates the role, spreading [state.roles] throws a TypeError,
    the action throws it, [roles] stays [undefined] and [error] says
    "Failed to create role".  The same holds for [createPermission] and
    [permissions]. *)
Theorem create_needs_collection w :
  (forall roleData,
     AuthorizationState.roles (authorization w) = None ->
     succeeded (api_createRole net roleData
                  (set_authorization authorization_begin w).2).1 ->
     let run := createRole net roleData w in
     (exists msg, run.1 = Err (TypeError msg)) /\
     AuthorizationState.roles (authorization run.2) = None /\
     AuthorizationState.error (authorization run.2)
       = Some "Failed to create role") /\
  (forall permissionData,
     AuthorizationState.permissions (authorization w) = None ->
     succeeded (api_createPermission net permissionData
                  (set_authorization authorization_begin w).2).1 ->
     let run := createPermission net permissionData w in
     (exists msg, run.1 = Err (TypeError msg)) /\
     AuthorizationState.permissions (authorization run.2) = None /\
     AuthorizationState.error (authorization run.2)
       = Some "Failed to create permission").
Proof.
  split.
  - intros roleData Hnone.
    unfold createRole, bind, try_catch. simpl. unfold api_createRole.
    match goal with |- context [request net ?e ?d ?w1] =>
      pose proof (request_stores net e d w1) as (_ & _ & Hz & _);
      destruct (request net e d w1) as [[body|err'] w2]
    end; simpl in *; [|done].
    intros _. unfold lift, get_authorization. rewrite Hz. simpl.
    rewrite Hnone. simpl. rewrite Hz. simpl. rewrite Hnone. eauto.
  - intros permissionData Hnone.
    unfold createPermission, bind, try_catch. simpl.
    unfold api_createPermission.
    match goal with |- context [request net ?e ?d ?w1] =>
      pose proof (request_stores net e d w1) as (_ & _ & Hz & _);
      destruct (request net e d w1) as [[body|err'] w2]
    end; simpl in *; [|done].
    intros _. unfold lift, get_authorization. rewrite Hz. simpl.
    rewrite Hnone. simpl. rewrite Hz. simpl. rewrite Hnone. eauto.
Qed.

(** X17.  When [createRole] returns normally on a store that has a role
    list, the server has answered the POST of that very role with a
    success, and the new list is the old one with the [data] of the
    answer appended as its last entry ([undefined] if the answer has
    none); permissions and both caches are as before.  The same holds for
    [createPermission] and the permission list. *)
Theorem create_appends_answer w :
  (forall roleData roles,
     AuthorizationState.roles (authorization w) = Some roles ->
     (createRole net roleData w).1 = Ok tt ->
     exists response hist cfg,
       net PostRole hist cfg = Fulfilled response /\
       Config.data cfg = CreateRoleData roleData /\
       let before := authorization w in
       let after := authorization (createRole net roleData w).2 in
       AuthorizationState.roles after
         = Some (roles ++ [ApiResponse.data response]) /\
       AuthorizationState.permissions after
         = AuthorizationState.permissions before /\
       AuthorizationState.userRoles after
         = AuthorizationState.userRoles before /\
       AuthorizationState.userPermissions after
         = AuthorizationState.userPermissions before) /\
  (forall permissionData permissions,
     AuthorizationState.permissions (authorization w) = Some permissions ->
     (createPermission net permissionData w).1 = Ok tt ->
     exists response hist cfg,
       net PostPermission hist cfg = Fulfilled response /\
       Config.data cfg = CreatePermissionData permissionData /\
       let before := authorization w in
       let after := authorization (createPermission net permissionData w).2 in
       AuthorizationState.permissions after
         = Some (permissions ++ [ApiResponse.data response]) /\
       AuthorizationState.roles after = AuthorizationState.roles before /\
       AuthorizationState.userRoles after
         = AuthorizationState.userRoles before /\
       AuthorizationState.userPermissions after
         = AuthorizationState.userPermissions before).
Proof.
  split.
  - intros roleData roles Hroles.
    unfold createRole, bind, try_catch. simpl. unfold api_createRole.
    match goal with |- context [request net ?e ?d ?w1] =>
      pose proof (request_outcome net e d w1) as Hout;
      pose proof (request_stores net e d w1) as (_ & _ & Hz & _);
      destruct (request net e d w1) as [[body|err'] w2]
    end; simpl in *; [|done].
    unfold lift, get_authorization. rewrite Hz. simpl. rewrite Hroles. simpl.
    intros _. destruct Hout as (hist & cfg & Hnet & Hdata).
    by exists body, hist, cfg.
  - intros permissionData permissions Hpermissions.
    unfold createPermission, bind, try_catch. simpl.
    unfold api_createPermission.
    match goal with |- context [request net ?e ?d ?w1] =>
      pose proof (request_outcome net e d w1) as Hout;
      pose proof (request_stores net e d w1) as (_ & _ & Hz & _);
      destruct (request net e d w1) as [[body|err'] w2]
    end; simpl in *; [|done].
    unfold lift, get_authorization. rewrite Hz. simpl.
    rewrite Hpermissions. simpl.
    intros _. destruct Hout as (hist & cfg & Hnet & Hdata).
    by exists body, hist, cfg.
Qed.

(** X18.  When the server answers, [fetchUserRoles] puts the [data] of
    the answer under the key of that user in the role cache, replacing
    what was there; the entries of all other users, the permission cache,
    both collections and the flags are as before.  The same holds for
    [fetchUserPermissions] and the permission cache. *)
Theorem user_cache_holds_answer userId w :
  (forall response,
     (api_getUserRoles net userId w).1 = Ok response ->
     let run := fetchUserRoles net userId w in
     let before := authorization w in
     let after := authorization run.2 in
     run.1 = Ok tt /\
     AuthorizationState.userRoles after !! userId
       = Some (ApiResponse.data response) /\
     (forall other, other <> userId ->
        AuthorizationState.userRoles after !! other
        = AuthorizationState.userRoles before !! other) /\
     AuthorizationState.userPermissions after
       = AuthorizationState.userPermissions before /\
     AuthorizationState.roles after = AuthorizationState.roles before /\
     AuthorizationState.permissions after
       = AuthorizationState.permissions before /\
     same_flags w run.2) /\
  (forall response,
     (api_getUserPermissions net userId w).1 = Ok response ->
     let run := fetchUserPermissions net userId w in
     let before := authorization w in
     let after := authorization run.2 in
     run.1 = Ok tt /\
     AuthorizationState.userPermissions after !! userId
       = Some (ApiResponse.data response) /\
     (forall other, other <> userId ->
        AuthorizationState.userPermissions after !! other
        = AuthorizationState.userPermissions before !! other) /\
     AuthorizationState.userRoles after = AuthorizationState.userRoles before
     /\
     AuthorizationState.roles after = AuthorizationState.roles before /\
     AuthorizationState.permissions after
       = AuthorizationState.permissions before /\
     same_flags w run.2).
Proof.
  split; intros response Hok; simpl.
  - destruct (fetchUserRoles_caches userId w response Hok) as (Hrun & Hz).
    unfold same_flags. rewrite Hz. simpl. repeat split; [done|..].
    + apply lookup_insert_eq.
    + intros other Hne. by apply lookup_insert_ne.
  - destruct (fetchUserPermissions_caches userId w response Hok)
      as (Hrun & Hz).
    unfold same_flags. rewrite Hz. simpl. repeat split; [done|..].
    + apply lookup_insert_eq.
    + intros other Hne. by apply lookup_insert_ne.
Qed.

(** X19.  [assignRole] and [revokeRole], when the server accepts the
    change and answers the refetch: the action returns normally, the role
    cache of that user holds the [data] of the refetch (not something
    computed locally from the role id), and the last event is the success
    toast. *)
Theorem role_change_refetches userId roleId w response :
  (let sent := api_assignRole net userId roleId w in
   succeeded sent.1 ->
   (api_getUserRoles net userId sent.2).1 = Ok response ->
   let run := assignRole net userId roleId w in
   run.1 = Ok tt /\
   AuthorizationState.userRoles (authorization run.2)
     = <[userId := ApiResponse.data response]>
         (AuthorizationState.userRoles (authorization w)) /\
   last (log run.2) = Some (EvToastSuccess "Role assigned successfully!")) /\
  (let sent := api_revokeRole net userId roleId w in
   succeeded sent.1 ->
   (api_getUserRoles net userId sent.2).1 = Ok response ->
   let run := revokeRole net userId roleId w in
   run.1 = Ok tt /\
   AuthorizationState.userRoles (authorization run.2)
     = <[userId := ApiResponse.data response]>
         (AuthorizationState.userRoles (authorization w)) /\
   last (log run.2) = Some (EvToastSuccess "Role revoked successfully!")).
Proof.
  split.
  - simpl. unfold assignRole, try_catch, bind, api_assignRole.
    pose proof (request_stores net PostAssignRole
                  (AssignRoleData userId roleId) w) as (_ & _ & Hz & _).
    destruct (request net PostAssignRole _ w) as [[body|err] w1];
      simpl in *; [|done].
    intros _ Hok.
    destruct (fetchUserRoles_caches userId w1 response Hok)
      as (Hrun & Hroles).
    destruct (fetchUserRoles net userId w1) as [[[]|err] w2];
      simpl in *; [|done].
    split; [done|]. split; [by rewrite Hroles, Hz|]. apply last_snoc.
  - simpl. unfold revokeRole, try_catch, bind, api_revokeRole.
    pose proof (request_stores net (DeleteUserRole userId roleId)
                  NoData w) as (_ & _ & Hz & _).
    destruct (request net (DeleteUserRole userId roleId) _ w)
      as [[body|err] w1]; simpl in *; [|done].
    intros _ Hok.
    destruct (fetchUserRoles_caches userId w1 response Hok)
      as (Hrun & Hroles).
    destruct (fetchUserRoles net userId w1) as [[[]|err] w2];
      simpl in *; [|done].
    split; [done|]. split; [by rewrite Hroles, Hz|]. apply last_snoc.
Qed.

(** X20.  [assignRole] and [revokeRole], when the server rejects the
    change: the action throws that same error, and all it does after the
    failed request is one error toast with the server's text or the
    fallback: no refetch is sent and no store is written. *)
Theorem role_change_failure_skips_refetch userId roleId w err :
  ((api_assignRole net userId roleId w).1 = Err err ->
   assignRole net userId roleId w
   = (Err err,
      with_event
        (EvToastError
           (or_else (error_response_error err) "Failed to assign role"))
        (api_assignRole net userId roleId w).2)) /\
  ((api_revokeRole net userId roleId w).1 = Err err ->
   revokeRole net userId roleId w
   = (Err err,
      with_event
        (EvToastError
           (or_else (error_response_error err) "Failed to revoke role"))
        (api_revokeRole net userId roleId w).2)).
Proof.
  split.
  - unfold assignRole, try_catch, bind, api_assignRole.
    destruct (request net PostAssignRole _ w) as [[body|err'] w1];
      simpl; [done|]. by intros [= ->].
  - unfold revokeRole, try_catch, bind, api_revokeRole.
    destruct (request net (DeleteUserRole userId roleId) _ w)
      as [[body|err'] w1]; simpl; [done|]. by intros [= ->].
Qed.

End AuthorizationRuns.

(** X16: the role list is lost to an answer without [data]; after that no
    role can be created. *)
Lemma createRole_after_bare_fetch :
  let w := (fetchRoles bare initial_world).2 in
  let run := createRole bare auditor_request w in
  (exists msg, run.1 = Err (TypeError msg)) /\
  AuthorizationState.roles (authorization run.2) = None /\
  AuthorizationState.error (authorization run.2)
    = Some "Failed to create role".
Proof.
  apply (proj1 (create_needs_collection bare
                  (fetchRoles bare initial_world).2) auditor_request);
    [reflexivity | exact I].
Defined.

(** X17: the first role of a fresh store, created against a server that
    answers without [data]. *)
Lemma createRole_appends_answer_bare :
  exists response hist cfg,
    bare PostRole hist cfg = Fulfilled response /\
    Config.data cfg = CreateRoleData auditor_request /\
    let before := authorization initial_world in
    let after :=
      authorization (createRole bare auditor_request initial_world).2 in
    AuthorizationState.roles after = Some ([] ++ [ApiResponse.data response])
    /\
    AuthorizationState.permissions after
      = AuthorizationState.permissions before /\
    AuthorizationState.userRoles after = AuthorizationState.userRoles before
    /\
    AuthorizationState.userPermissions after
      = AuthorizationState.userPermissions before.
Proof.
  apply (proj1 (create_appends_answer bare initial_world) auditor_request []);
    reflexivity.
Defined.

(** X18: the roles of alice are fetched into an empty cache. *)
Lemma fetchUserRoles_holds_answer :
  let run := fetchUserRoles (gateway true) "u1" initial_world in
  let before := authorization initial_world in
  let after := authorization run.2 in
  run.1 = Ok tt /\
  AuthorizationState.userRoles after !! "u1" = Some (Some []) /\
  (forall other, other <> "u1" ->
     AuthorizationState.userRoles after !! other
     = AuthorizationState.userRoles before !! other) /\
  AuthorizationState.userPermissions after
    = AuthorizationState.userPermissions before /\
  AuthorizationState.roles after = AuthorizationState.roles before /\
  AuthorizationState.permissions after
    = AuthorizationState.permissions before /\
  same_flags initial_world run.2.
Proof.
  apply (proj1 (user_cache_holds_answer (gateway true) "u1" initial_world)
               (envelope (Some []))).
  reflexivity.
Defined.

(** X19: alice is made an admin. *)
Lemma assignRole_refetches_alice :
  let run := assignRole (gateway true) "u1" "admin" initial_world in
  run.1 = Ok tt /\
  AuthorizationState.userRoles (authorization run.2)
    = <["u1" := Some []]> ∅ /\
  last (log run.2) = Some (EvToastSuccess "Role assigned successfully!").
Proof.
  apply (proj1 (role_change_refetches (gateway true) "u1" "admin"
                  initial_world (envelope (Some []))));
    [exact I | reflexivity].
Defined.

(** X20 without a network. *)
Lemma assignRole_offline :
  assignRole offline "u1" "admin" initial_world
  = (Err (AxiosError None "Network Error"),
     with_event (EvToastError "Failed to assign role")
       (api_assignRole offline "u1" "admin" initial_world).2).
Proof.
  apply (proj1 (role_change_failure_skips_refetch offline "u1" "admin"
                  initial_world (AxiosError None "Network Error"))).
  reflexivity.
Defined.

(** * Beyond the claims: the three stores together *)

Section Isolation.

Variable net : forall e : Endpoint, list Event -> Config.t -> NetResult e.

Lemma untouched_refl s w : untouched s w w.
Proof. by destruct s. Qed.

Lemma untouched_trans s w1 w2 w3 :
  untouched s w1 w2 -> untouched s w2 w3 -> untouched s w1 w3.
Proof. destruct s; simpl; intuition congruence. Qed.

Lemma stores_untouched s {A} (m : M A) :
  respects same_stores m -> respects (untouched s) m.
Proof.
  intros H w. destruct (H w) as (? & ? & ? & ?). by destruct s.
Qed.

Lemma set_auth_untouched f : respects (untouched SessionStore) (set_auth f).
Proof. by intros w. Qed.

Lemma set_user_untouched f : respects (untouched UserStore) (set_user f).
Proof. by intros w. Qed.

Lemma set_authorization_untouched f :
  respects (untouched AuthorizationStore) (set_authorization f).
Proof. by intros w. Qed.

Lemma get_auth_untouched s : respects (untouched s) get_auth.
Proof. intros w. apply untouched_refl. Qed.

Lemma get_user_untouched s : respects (untouched s) get_user.
Proof. intros w. apply untouched_refl. Qed.

Lemma get_authorization_untouched s : respects (untouched s) get_authorization.
Proof. intros w. apply untouched_refl. Qed.

Lemma api_logout_stores : respects same_stores (api_logout net).
Proof.
  unfold api_logout, clearTokens, console.
  peel same_stores_refl same_stores_trans
    ltac:(first [ stores_leaf | apply request_stores ]).
Qed.

Ltac untouched_leaf :=
  first [ apply set_auth_untouched | apply set_user_untouched
        | apply set_authorization_untouched | apply get_auth_untouched
        | apply get_user_untouched | apply get_authorization_untouched
        | apply stores_untouched;
          first [ apply request_stores | stores_leaf ] ].

Ltac untouched_tac s :=
  peel (untouched_refl s) (untouched_trans s) untouched_leaf.

(** X21.  The three stores are isolated from each other and from the
    client, for every answer of the server and every outcome: a request
    through the client writes no store at all; an action of the session
    store leaves the user store and the authorization store as they were;
    an action of the user store leaves the session (in memory and
    persisted) and the authorization store as they were; an action of the
    authorization store leaves the session and the user store as they
    were. *)
Theorem stores_are_isolated :
  (forall e config w, same_stores w (client net e config w).2) /\
  (forall a w, untouched SessionStore w (run_auth net a w).2) /\
  (forall a w, untouched (store_of a) w (run_loading net a w).2) /\
  (forall a w, untouched AuthorizationStore w (run_cache net a w).2).
Proof.
  split; [|split; [|split]].
  - intros e config w. apply client_upto_stores.
  - intros a. fold (respects (untouched SessionStore) (run_auth net a)).
    destruct a; cbn [run_auth];
      unfold login, logout, call_refreshToken, refreshToken,
        auth_clearError, setLoading,
        api_login, toast_success, toast_error, console;
      peel (untouched_refl SessionStore) (untouched_trans SessionStore)
        ltac:(first [ untouched_leaf
                    | apply stores_untouched, api_logout_stores ]).
  - intros a.
    fold (respects (untouched (store_of a)) (run_loading net a)).
    destruct a; cbn [run_loading store_of];
      unfold fetchUsers, fetchUserById, createUser, updateUser, deleteUser,
        fetchRoles, fetchPermissions, createRole, createPermission,
        api_getUsers, api_getUserById, api_createUser, api_updateUser,
        api_deleteUser, api_getRoles, api_getPermissions, api_createRole,
        api_createPermission, toast_success, toast_error.
    all: try untouched_tac UserStore.
    all: try untouched_tac AuthorizationStore.
  - intros a.
    fold (respects (untouched AuthorizationStore) (run_cache net a)).
    destruct a; cbn [run_cache];
      unfold assignRole, revokeRole, fetchUserRoles, fetchUserPermissions,
        api_assignRole, api_revokeRole, api_getUserRoles,
        api_getUserPermissions, toast_success, toast_error, console;
      untouched_tac AuthorizationStore.
Qed.

(** X22.  The other end of the loading flag.  Each of the nine actions
    that raise [isLoading] lowers it again before it ends, whatever the
    server answers and also when the action throws.  The four fetch
    actions never throw; a create, update or delete that returns normally
    leaves [error] null; and an action that throws has first recorded a
    non-empty message in [error]. *)
Theorem loading_lowered_error_recorded a w :
  let run := run_loading net a w in
  let flags := flags_of a run.2 in
  flags.1 = false /\
  match run.1 with
  | Ok _ =>
      if is_fetch a
      then flags.2 = None \/
           exists message, flags.2 = Some message /\ message <> ""
      else flags.2 = None
  | Err _ =>
      is_fetch a = false /\
      exists message, flags.2 = Some message /\ message <> ""
  end.
Proof.
  destruct a; cbn [run_loading flags_of store_of is_fetch];
    unfold fetchUsers, fetchUserById, createUser, updateUser, deleteUser,
      fetchRoles, fetchPermissions, createRole, createPermission,
      api_getUsers, api_getUserById, api_createUser, api_updateUser,
      api_deleteUser, api_getRoles, api_getPermissions, api_createRole,
      api_createPermission, bind, try_catch, lift, get_user,
      get_authorization, toast_success, toast_error, emit, throw;
    simpl;
    match goal with |- context [request net ?e ?d ?w1] =>
      pose proof (request_stores net e d w1) as (_ & Hu & Hz & _);
      destruct (request net e d w1) as [[body|err'] w2]
    end; simpl in *;
    repeat case_match; simpl in *; simplify_eq/=;
    rewrite ?Hu, ?Hz; simpl.
  all: split; [done|].
  all: first
    [ done
    | by left
    | right; eexists; (split; [reflexivity|]); by apply or_else_nonempty
    | split; [done|]; eexists; (split; [reflexivity|]);
      by apply or_else_nonempty ].
Qed.

End Isolation.

(** * Beyond the claims: utilities *)

Lemma USER_TYPES_lookup (typeId : Z) :
  USER_TYPES !! typeId
  = match typeId with
    | 1 => Some "GUEST_USER"
    | 2 | 4 => Some "DEPT_USER"
    | 3 => Some "MANAGER"
    | 5 => Some "DEPT_HEAD"
    | 8 => Some "ORG_ADMIN"
    | 10 => Some "SUPER_ADMIN"
    | _ => None
    end%Z.
Proof.
  unfold USER_TYPES; simpl.
  repeat (rewrite lookup_insert; case_decide; [by subst|]).
  rewrite lookup_empty.
  destruct typeId as [|p|p]; try done.
  do 4 (try destruct p as [p|p|]; try done).
Qed.

(** name, colour and badge of every user type *)
Lemma user_type_cases (typeId : Z) :
  In (getUserTypeName typeId, getUserTypeColor typeId,
      getUserTypeBadgeVariant typeId)
     [("GUEST_USER", "bg-gray-100 text-gray-800", "default");
      ("DEPT_USER", "bg-green-100 text-green-800", "default");
      ("MANAGER", "bg-cyan-100 text-cyan-800", "warning");
      ("DEPT_HEAD", "bg-indigo-100 text-indigo-800", "info");
      ("ORG_ADMIN", "bg-blue-100 text-blue-800", "info");
      ("SUPER_ADMIN", "bg-purple-100 text-purple-800", "danger");
      ("UNKNOWN", "bg-gray-100 text-gray-800", "default")].
Proof.
  unfold getUserTypeName. rewrite USER_TYPES_lookup.
  destruct typeId as [|p|p]; try (do 4 (try destruct p as [p|p|])); simpl;
    tauto.
Qed.

(** X23.  The three tables of user types agree: the name table
    [USER_TYPES], the colour switch of [getUserTypeColor] and the badge
    switch of the users page are written separately, yet two type ids
    with the same name (such as 2 and 4, both DEPT_USER, or any two
    unknown ids) always get the same colour and the same badge. *)
Theorem user_type_display_follows_name (a b : Z) :
  getUserTypeName a = getUserTypeName b ->
  getUserTypeColor a = getUserTypeColor b /\
  getUserTypeBadgeVariant a = getUserTypeBadgeVariant b.
Proof.
  pose proof (user_type_cases a) as Ha. pose proof (user_type_cases b) as Hb.
  simpl in Ha, Hb. intros Hname.
  repeat (destruct Ha as [Ha|Ha]); try contradiction;
    repeat (destruct Hb as [Hb|Hb]); try contradiction;
    injection Ha as Hna Hca Hba; injection Hb as Hnb Hcb Hbb;
    rewrite <- Hna, <- Hnb in Hname;
    first [ discriminate Hname
          | rewrite <- Hca, <- Hcb, <- Hba, <- Hbb; split; reflexivity ].
Qed.

(** X23 on the two ids of DEPT_USER. *)
Lemma user_type_display_dept_user :
  getUserTypeColor 2 = getUserTypeColor 4 /\
  getUserTypeBadgeVariant 2 = getUserTypeBadgeVariant 4.
Proof. apply (user_type_display_follows_name 2 4). reflexivity. Defined.

(** X24.  [extractErrorMessage] never returns the empty text: an empty
    [error], [message] or error message is skipped like a missing one.
    So [handleApiError] always returns the extracted message and its
    [defaultMessage] is never used.  A non-empty [error] text of the
    server wins over everything else. *)
Theorem extractErrorMessage_never_empty error defaultMessage w :
  extractErrorMessage error <> "" /\
  (handleApiError error defaultMessage w).1 = Ok (extractErrorMessage error)
  /\
  (if truthy (error_response_error error)
   then Some (extractErrorMessage error) = error_response_error error
   else True).
Proof.
  assert (Htruthy : forall o, truthy o = true -> js_string o <> "").
  { intros [s|]; simpl; [|done]. by destruct (String.eqb_spec s ""). }
  assert (Hne : extractErrorMessage error <> "").
  { unfold extractErrorMessage.
    destruct (truthy (error_response_error error)) eqn:H1; [by apply Htruthy|].
    destruct (truthy (error_response_message error)) eqn:H2;
      [by apply Htruthy|].
    destruct (truthy (error_message error)) eqn:H3; [by apply Htruthy|].
    done. }
  split; [done|]. split.
  - unfold handleApiError, bind, console, emit, ret. simpl.
    by destruct (String.eqb_spec (extractErrorMessage error) "").
  - unfold extractErrorMessage.
    destruct (truthy (error_response_error error)) eqn:H1; [|done].
    by destruct (error_response_error error).
Qed.

Section Split.

Variable sep : ascii.

Lemma split_cons s : exists part parts, split sep s = part :: parts.
Proof.
  destruct s as [|c s]; simpl; [eauto|].
  destruct (Ascii.eqb c sep); [eauto|].
  destruct (split sep s); eauto.
Qed.

Lemma split_length s : length (split sep s) = S (occurrences sep s).
Proof.
  induction s as [|c s IH]; simpl; [done|].
  destruct (Ascii.eqb c sep); simpl; [by rewrite IH|].
  destruct (split sep s); simpl in *; done.
Qed.

Lemma split_parts_clean s :
  Forall (fun part => occurrences sep part = 0) (split sep s).
Proof.
  induction s as [|c s IH]; simpl; [by constructor|].
  destruct (Ascii.eqb c sep) eqn:Hc; [by constructor|].
  destruct (split sep s) as [|part parts]; simpl.
  - constructor; [|done]. simpl. by rewrite Hc.
  - inversion IH; subst. constructor; [|done]. simpl. by rewrite Hc.
Qed.

Lemma join_split s : join sep (split sep s) = s.
Proof.
  induction s as [|c s IH]; simpl; [done|].
  destruct (Ascii.eqb_spec c sep) as [->|Hc].
  - destruct (split_cons s) as (part & parts & Hs). rewrite Hs.
    change (join sep (EmptyString :: part :: parts))
      with (String sep (join sep (part :: parts))).
    by rewrite <- Hs, IH.
  - destruct (split_cons s) as (part & parts & Hs). rewrite Hs in *.
    destruct parts as [|part' parts].
    + simpl in *. by subst.
    + change (join sep (String c part :: part' :: parts))
        with (String c (join sep (part :: part' :: parts))).
      by rewrite IH.
Qed.

Lemma split_clean s : occurrences sep s = 0 -> split sep s = [s].
Proof.
  induction s as [|c s IH]; simpl; [done|].
  destruct (Ascii.eqb c sep); [done|]. simpl. intros H. by rewrite IH.
Qed.

Lemma split_clean_app r rest :
  occurrences sep r = 0 ->
  split sep (r +:+ String sep rest) = r :: split sep rest.
Proof.
  induction r as [|c r IH]; simpl.
  - by rewrite Ascii.eqb_refl.
  - destruct (Ascii.eqb c sep); [done|]. simpl. intros H. by rewrite IH.
Qed.

Lemma occurrences_app a b :
  occurrences sep (a +:+ b) = occurrences sep a + occurrences sep b.
Proof.
  induction a as [|c a IH]; simpl; [done|]. rewrite IH. lia.
Qed.

End Split.

Lemma or_else_empty (part : string) : or_else (Some part) "" = part.
Proof. unfold or_else. by destruct (String.eqb_spec part ""). Qed.

Lemma or_else_clean sep (o : option string) :
  (forall part, o = Some part -> occurrences sep part = 0) ->
  occurrences sep (or_else o "") = 0.
Proof.
  intros H. destruct o as [part|]; [|done].
  rewrite or_else_empty. by apply H.
Qed.

(** what [parsePermissionName] returns is free of dots *)
Lemma parsePermissionName_clean permissionName :
  occurrences "." (parsePermissionName permissionName).1 = 0 /\
  occurrences "." (parsePermissionName permissionName).2 = 0.
Proof.
  unfold parsePermissionName. cbn [fst snd].
  pose proof (split_parts_clean "." permissionName) as Hclean.
  split; apply or_else_clean; intros part Hpart;
    by apply (Forall_lookup_1 _ _ _ _ Hclean Hpart).
Qed.

(** X25.  Parsing a formatted permission name gives back resource and
    action exactly when neither of them contains a dot: for a resource
    such as "user.profile" the round trip loses a part. *)
Theorem parse_format_permission_name resource action :
  parsePermissionName (formatPermissionName resource action)
    = (resource, action)
  <-> occurrences "." resource = 0 /\ occurrences "." action = 0.
Proof.
  split.
  - intros H.
    pose proof (parsePermissionName_clean
                  (formatPermissionName resource action)) as [H1 H2].
    rewrite H in H1, H2. done.
  - intros [Hr Ha]. unfold parsePermissionName, formatPermissionName.
    change ("." +:+ action) with (String "." action).
    rewrite split_clean_app by done. rewrite split_clean by done.
    cbn [lookup list_lookup]. by rewrite !or_else_empty.
Qed.

(** X26.  Formatting a parsed permission name gives back the name
    exactly when the name contains one dot: a name without a dot gains
    one at its end, and a name with more dots is cut off at its second
    dot. *)
Theorem format_parse_permission_name permissionName :
  formatPermissionName (parsePermissionName permissionName).1
                       (parsePermissionName permissionName).2
    = permissionName
  <-> occurrences "." permissionName = 1.
Proof.
  split.
  - intros H.
    pose proof (parsePermissionName_clean permissionName) as [H1 H2].
    rewrite <- H. unfold formatPermissionName.
    rewrite occurrences_app.
    change ("." +:+ (parsePermissionName permissionName).2)
      with (String "." (parsePermissionName permissionName).2).
    cbn [occurrences]. rewrite H1, H2. done.
  - intros Hone.
    pose proof (split_length "." permissionName) as Hlen.
    pose proof (join_split "." permissionName) as Hjoin.
    unfold parsePermissionName, formatPermissionName. cbn [fst snd].
    destruct (split "." permissionName) as [|x [|y [|z parts]]];
      simpl in Hlen; try lia.
    cbn [lookup list_lookup]. rewrite !or_else_empty. exact Hjoin.
Qed.

(** * Beyond the claims: validation *)

Lemma Matches_Never s : Matches Never s <-> False.
Proof. split; inversion 1. Qed.

Lemma Matches_Empty s : Matches Empty s <-> s = [].
Proof. split; [by inversion 1|intros ->; constructor]. Qed.

Lemma Matches_Class p s :
  Matches (Class p) s <-> exists c, s = [c] /\ p c = true.
Proof.
  split.
  - inversion 1; subst. eauto.
  - intros (c & -> & Hc). by constructor.
Qed.

Lemma Matches_Seq r1 r2 s :
  Matches (Seq r1 r2) s <->
  exists s1 s2, s = s1 ++ s2 /\ Matches r1 s1 /\ Matches r2 s2.
Proof.
  split.
  - inversion 1; subst. eauto.
  - intros (s1 & s2 & -> & H1 & H2). by constructor.
Qed.

Lemma Matches_Alt r1 r2 s :
  Matches (Alt r1 r2) s <-> Matches r1 s \/ Matches r2 s.
Proof.
  split.
  - inversion 1; subst; auto.
  - intros [H|H]; [by apply MatchesAltL|by apply MatchesAltR].
Qed.

Lemma nullable_Matches r : nullable r = true <-> Matches r [].
Proof.
  induction r as [| |p|r1 IH1 r2 IH2|r1 IH1 r2 IH2|r IH]; simpl.
  - by rewrite Matches_Never.
  - by rewrite Matches_Empty.
  - rewrite Matches_Class. split; [done|]. by intros (c & ? & _).
  - rewrite andb_true_iff, IH1, IH2, Matches_Seq. split.
    + intros [H1 H2]. by exists [], [].
    + intros (s1 & s2 & Heq & H1 & H2). symmetry in Heq.
      apply app_eq_nil in Heq as [-> ->]. done.
  - by rewrite orb_true_iff, IH1, IH2, Matches_Alt.
  - split; [constructor|done].
Qed.

Lemma Matches_Star_cons r c s :
  Matches (Star r) (c :: s) ->
  exists s1 s2, s = s1 ++ s2 /\ Matches r (c :: s1) /\ Matches (Star r) s2.
Proof.
  intros H. remember (Star r) as r' eqn:Hr. remember (c :: s) as s' eqn:Hs.
  revert s Hs.
  induction H as [| | | | | |r0 s1 s2 H1 _ H2 IH2]; intros t Ht; try done.
  injection Hr as ->.
  destruct s1 as [|c1 s1]; simpl in Ht.
  - by apply IH2.
  - injection Ht as -> <-. by exists s1, s2.
Qed.

Lemma derivative_Seq r1 r2 c s :
  (forall s, Matches (derivative c r1) s <-> Matches r1 (c :: s)) ->
  Matches (Seq (derivative c r1) r2) s <->
  exists s1 s2, s = s1 ++ s2 /\ Matches r1 (c :: s1) /\ Matches r2 s2.
Proof.
  intros IH1. rewrite Matches_Seq. split.
  - intros (s1 & s2 & -> & H1 & H2). exists s1, s2. by rewrite <- IH1.
  - intros (s1 & s2 & -> & H1 & H2). exists s1, s2. by rewrite IH1.
Qed.

Lemma derivative_Matches r c s :
  Matches (derivative c r) s <-> Matches r (c :: s).
Proof.
  revert s.
  induction r as [| |p|r1 IH1 r2 IH2|r1 IH1 r2 IH2|r IH]; intros s; simpl.
  - by rewrite !Matches_Never.
  - by rewrite Matches_Never, Matches_Empty.
  - rewrite Matches_Class. destruct (p c) eqn:Hp.
    + rewrite Matches_Empty. split.
      * intros ->. eauto.
      * by intros (c' & [= -> ->] & _).
    + rewrite Matches_Never. split; [done|].
      intros (c' & [= -> ->] & ?). congruence.
  - rewrite (Matches_Seq r1 r2). destruct (nullable r1) eqn:Hnull.
    + rewrite Matches_Alt, (derivative_Seq r1 r2 c s IH1), IH2. split.
      * intros [(s1 & s2 & -> & H1 & H2)|H2].
        -- by exists (c :: s1), s2.
        -- apply nullable_Matches in Hnull. by exists [], (c :: s).
      * intros (s1 & s2 & Heq & H1 & H2).
        destruct s1 as [|c1 s1]; simpl in Heq.
        -- subst. by right.
        -- injection Heq as -> ->. left. eauto.
    + rewrite (derivative_Seq r1 r2 c s IH1). split.
      * intros (s1 & s2 & -> & H1 & H2). by exists (c :: s1), s2.
      * intros (s1 & s2 & Heq & H1 & H2).
        destruct s1 as [|c1 s1]; simpl in Heq.
        -- apply nullable_Matches in H1. congruence.
        -- injection Heq as -> ->. eauto.
  - by rewrite !Matches_Alt, IH1, IH2.
  - rewrite (derivative_Seq r (Star r) c s IH). split.
    + intros (s1 & s2 & -> & H1 & H2).
      by apply (MatchesStarApp r (c :: s1)).
    + apply Matches_Star_cons.
Qed.

(** the matcher decides the language *)
Lemma test_Matches r s : test r s = true <-> Matches r s.
Proof.
  revert r. induction s as [|c s IH]; intros r; simpl.
  - apply nullable_Matches.
  - rewrite IH. apply derivative_Matches.
Qed.

Lemma Matches_Star_Class p s :
  Matches (Star (Class p)) s <-> Forall (fun c => p c = true) s.
Proof.
  split.
  - intros H. remember (Star (Class p)) as r eqn:Hr.
    induction H as [| | | | | |r0 s1 s2 H1 _ H2 IH2]; try done.
    injection Hr as ->. apply Matches_Class in H1 as (c & -> & Hc).
    constructor; [done|]. by apply IH2.
  - induction 1 as [|c s Hc _ IH]; [constructor|].
    apply (MatchesStarApp _ [c] s); [by constructor|done].
Qed.

Lemma Matches_Plus_Class p s :
  Matches (Plus (Class p)) s <-> s <> [] /\ Forall (fun c => p c = true) s.
Proof.
  unfold Plus. rewrite Matches_Seq. split.
  - intros (s1 & s2 & -> & H1 & H2).
    apply Matches_Class in H1 as (c & -> & Hc).
    apply Matches_Star_Class in H2. split; [done|]. by constructor.
  - intros [Hne Hall]. destruct Hall as [|c s Hc Hall]; [done|].
    exists [c], s. split; [done|]. split; [by constructor|].
    by apply Matches_Star_Class.
Qed.

Lemma Matches_upto_Class n p s :
  Matches (upto n (Class p)) s <->
  length s <= n /\ Forall (fun c => p c = true) s.
Proof.
  revert s. induction n as [|n IH]; intros s; simpl.
  - rewrite Matches_Empty. split.
    + intros ->. split; [done|constructor].
    + intros [Hlen _]. destruct s; [done|simpl in Hlen; lia].
  - rewrite Matches_Alt, Matches_Empty, Matches_Seq. split.
    + intros [->|(s1 & s2 & -> & H1 & H2)].
      * split; [simpl; lia|constructor].
      * apply Matches_Class in H1 as (c & -> & Hc).
        apply IH in H2 as [Hlen Hall]. split; [simpl; lia|by constructor].
    + intros [Hlen Hall]. destruct Hall as [|c s Hc Hall]; [by left|].
      right. exists [c], s. split; [done|]. split; [by constructor|].
      apply IH. simpl in Hlen. split; [lia|done].
Qed.

Lemma Matches_times_Class n p rest s :
  Matches (times n (Class p) rest) s <->
  exists s1 s2, s = s1 ++ s2 /\ length s1 = n /\
                Forall (fun c => p c = true) s1 /\ Matches rest s2.
Proof.
  revert s. induction n as [|n IH]; intros s; simpl.
  - split.
    + intros H. exists [], s. by repeat split.
    + intros (s1 & s2 & -> & Hlen & _ & H).
      by destruct s1.
  - rewrite Matches_Seq. split.
    + intros (s1 & s2 & -> & H1 & H2).
      apply Matches_Class in H1 as (c & -> & Hc).
      apply IH in H2 as (t1 & t2 & -> & Hlen & Hall & Hrest).
      exists (c :: t1), t2. simpl. repeat split; [by rewrite Hlen| |done].
      by constructor.
    + intros (s1 & s2 & -> & Hlen & Hall & Hrest).
      destruct Hall as [|c s1 Hc Hall]; [done|].
      exists [c], (s1 ++ s2). split; [done|]. split; [by constructor|].
      apply IH. exists s1, s2. simpl in Hlen. repeat split; [lia|done..].
Qed.

(** X27.  [isValidUsername] accepts exactly the strings of 3 to 20 code
    units that are all ASCII letters, digits or underscores. *)
Theorem isValidUsername_iff username :
  isValidUsername username = true <->
  3 <= length username <= 20 /\
  Forall (fun c => username_char c = true) username.
Proof.
  unfold isValidUsername. rewrite test_Matches.
  unfold usernameRegex, between. simpl Nat.leb. cbv iota.
  rewrite Matches_times_Class. split.
  - intros (s1 & s2 & -> & Hlen & Hall & Hrest).
    apply Matches_upto_Class in Hrest as [Hlen2 Hall2].
    rewrite length_app. simpl in Hlen2. split; [lia|].
    by apply Forall_app.
  - intros [Hlen Hall].
    exists (take 3 username), (drop 3 username).
    rewrite take_drop. split; [done|]. split; [rewrite length_take; lia|].
    split; [by apply Forall_take|].
    apply Matches_upto_Class. rewrite length_drop. simpl.
    split; [lia|by apply Forall_drop].
Qed.

(** X28.  [isValidEmail] accepts exactly the strings that have the form
    [local @ domain . tail] with three non-empty parts without white space
    and without [@]; dots may occur in every part, and nothing else is
    asked of an address. *)
Theorem isValidEmail_iff email :
  isValidEmail email = true <->
  exists local domain tail,
    email = local ++ at_sign :: domain ++ full_stop :: tail /\
    local <> [] /\ domain <> [] /\ tail <> [] /\
    Forall (fun c => email_char c = true) (local ++ domain ++ tail).
Proof.
  unfold isValidEmail. rewrite test_Matches. unfold emailRegex. split.
  - intros H.
    apply Matches_Seq in H as (local & s1 & -> & Hlocal & H).
    apply Matches_Seq in H as (a & s2 & -> & Ha & H).
    apply Matches_Seq in H as (domain & s3 & -> & Hdomain & H).
    apply Matches_Seq in H as (d & tail & -> & Hd & Htail).
    apply Matches_Plus_Class in Hlocal as [? ?].
    apply Matches_Plus_Class in Hdomain as [? ?].
    apply Matches_Plus_Class in Htail as [? ?].
    apply Matches_Class in Ha as (c1 & -> & Hc1%N.eqb_eq).
    apply Matches_Class in Hd as (c2 & -> & Hc2%N.eqb_eq). subst.
    exists local, domain, tail. repeat split; try done.
    by repeat apply Forall_app_2.
  - intros (local & domain & tail & -> & ? & ? & ? & Hall).
    apply Forall_app in Hall as [? Hall]. apply Forall_app in Hall as [? ?].
    apply MatchesSeq; [by apply Matches_Plus_Class|].
    apply (MatchesSeq _ _ [at_sign]); [constructor; apply N.eqb_refl|].
    apply MatchesSeq; [by apply Matches_Plus_Class|].
    apply (MatchesSeq _ _ [full_stop]); [constructor; apply N.eqb_refl|].
    by apply Matches_Plus_Class.
Qed.
